(** * pl::BasicStringView (include/pl/string_view.hpp)

    A shallow embedding of the non-owning string view of philslib and the
    properties of its operations.

    - Characters live in storage blocks; a pointer is a block and an offset.
      A read outside its block has no defined behaviour ([Undefined]).
    - [std::size_t] is a 64-bit unsigned integer, written as [Z] with its
      wrap-around spelled out ([to_size_t]).
    - The character traits ([Traits::eq], [Traits::lt], [Traits::compare]) are
      a parameter of the class template and a parameter here.
    - [const] member functions are functions of the storage and of the value
      of the view; [remove_prefix] and [swap] run on a store of view objects
      addressed by reference, so that two references may alias. *)

From Stdlib Require Import ZArith Lia String.
From stdpp Require Import base option list gmap.

Local Open Scope Z_scope.

(** ** Outcomes of an operation *)

(** The exceptions a call can end in: [std::out_of_range], the only one the
    header throws itself, and the two the constructor of [std::basic_string]
    throws, [std::length_error] and the allocator's [std::bad_alloc]. *)
Inductive exception : Type :=
| out_of_range (what : string)
| length_error
| bad_alloc.

(** A call returns, throws, or has undefined behaviour. *)
Inductive outcome (A : Type) : Type :=
| Ret (a : A)
| Throw (e : exception)
| Undefined.

Arguments Ret {A} a.
Arguments Throw {A} e.
Arguments Undefined {A}.

Definition outcome_bind {A B : Type} (k : A → outcome B) (m : outcome A)
  : outcome B :=
  match m with
  | Ret a => k a
  | Throw e => Throw e
  | Undefined => Undefined
  end.

Definition outcome_map {A B : Type} (f : A → B) (m : outcome A) : outcome B :=
  match m with
  | Ret a => Ret (f a)
  | Throw e => Throw e
  | Undefined => Undefined
  end.

#[global] Instance outcome_ret : MRet outcome := @Ret.
#[global] Instance outcome_fmap : FMap outcome := @outcome_map.
#[global] Instance outcome_mbind : MBind outcome := @outcome_bind.

(** [nothrow o]: the call does not end in an exception. *)
Definition nothrow {A : Type} (o : outcome A) : Prop :=
  ∀ e, o ≠ Throw e.

(** ** std::size_t *)

Definition size_t_modulus : Z := 2 ^ 64.

Definition to_size_t (z : Z) : Z := z mod size_t_modulus.

Definition is_size_t (z : Z) : Prop := 0 ≤ z < size_t_modulus.

(** The largest size of an object, PTRDIFF_MAX. *)
Definition ptrdiff_max : Z := 2 ^ 63 - 1.

(** ** Character traits *)

(** The character type with its value-initialised character [CharT()] and
    the operations of the traits class the view uses. [Traits_compare] is
    given the two ranges of [n] characters that [Traits::compare(p, q, n)]
    reads. *)
Class CharTraits (CharT : Type) : Type := {
  CharT_zero : CharT;
  Traits_eq : CharT → CharT → bool;
  Traits_lt : CharT → CharT → bool;
  Traits_compare : list CharT → list CharT → Z
}.

(** [Traits::eq] on two ranges, position by position. *)
Definition ranges_eq `{CharTraits CharT} (p q : list CharT) : Prop :=
  Forall2 (λ c d, Traits_eq c d = true) p q.

(** What the C++ standard requires of [Traits::compare(p, q, n)]: zero if
    the ranges are equal under [eq] at every position; otherwise negative
    if at the first position [j] where they differ [lt(p[j], q[j])];
    otherwise positive. *)
Class TraitsCompare `{CharTraits CharT} : Prop := {
  Traits_compare_zero (p q : list CharT) :
    length p = length q →
    Traits_compare p q = 0 ↔ ranges_eq p q;
  Traits_compare_neg (p q : list CharT) :
    length p = length q →
    ¬ ranges_eq p q →
    Traits_compare p q < 0 ↔
    ∃ (j : nat) (c d : CharT),
      p !! j = Some c ∧ q !! j = Some d ∧ Traits_lt c d = true ∧
      ranges_eq (take j p) (take j q)
}.

(** [Traits::lt] is a strict order and [Traits::eq] holds of exactly the
    characters that [lt] does not separate. *)
Class TraitsOrder `{CharTraits CharT} : Prop := {
  Traits_lt_irrefl (c : CharT) : Traits_lt c c = false;
  Traits_lt_trans (c d e : CharT) :
    Traits_lt c d = true → Traits_lt d e = true → Traits_lt c e = true;
  Traits_eq_lt (c d : CharT) :
    Traits_eq c d = true ↔ Traits_lt c d = false ∧ Traits_lt d c = false;
  Traits_eq_trans (c d e : CharT) :
    Traits_eq c d = true → Traits_eq d e = true → Traits_eq c e = true
}.

(** The lexicographic order in the words of the specification: the first
    position where the characters differ decides; when one sequence is a
    prefix of the other, the shorter one is the smaller. *)
Fixpoint lexicographic `{CharTraits CharT} (p q : list CharT) : comparison :=
  match p, q with
  | [], [] => Eq
  | [], _ :: _ => Lt
  | _ :: _, [] => Gt
  | c :: p', d :: q' =>
      if Traits_lt c d then Lt
      else if Traits_lt d c then Gt
      else lexicographic p' q'
  end.

(** The sign of an [int] result as a [comparison]. *)
Definition sign_of (r : Z) : comparison := r ?= 0.

(** ** Storage and pointers *)

(** A block of character storage: the string literal [""] of
    [detail::empty_string<CharT>::value], which has static storage duration,
    or a block of the heap. *)
Inductive block : Type :=
| EmptyStringLiteral
| HeapBlock (b : positive).

#[global] Instance block_eq_dec : EqDecision block.
Proof. solve_decision. Defined.

Inductive pointer : Type :=
| Null
| Ptr (b : block) (off : Z).

#[global] Instance pointer_eq_dec : EqDecision pointer.
Proof. solve_decision. Defined.

(** [p + n] *)
Definition ptr_add (p : pointer) (n : Z) : pointer :=
  match p with
  | Null => Null
  | Ptr b off => Ptr b (off + n)
  end.

(** [p - n] *)
Definition ptr_sub (p : pointer) (n : Z) : pointer :=
  match p with
  | Null => Null
  | Ptr b off => Ptr b (off - n)
  end.

Section Storage.
Context {CharT : Type} `{!CharTraits CharT}.

(** The literal does not depend on the state of the heap. *)
Definition block_contents (h : gmap positive (list CharT)) (b : block)
  : option (list CharT) :=
  match b with
  | EmptyStringLiteral => Some [CharT_zero]
  | HeapBlock n => h !! n
  end.

(** [*p] *)
Definition deref (h : gmap positive (list CharT)) (p : pointer)
  : outcome CharT :=
  match p with
  | Null => Undefined
  | Ptr b off =>
      match block_contents h b with
      | Some l =>
          if decide (0 ≤ off ∧ off < Z.of_nat (length l))
          then match l !! Z.to_nat off with
               | Some c => Ret c
               | None => Undefined
               end
          else Undefined
      | None => Undefined
      end
  end.

(** The range [[p, p + n)]. *)
Definition load (h : gmap positive (list CharT)) (p : pointer) (n : Z)
  : outcome (list CharT) :=
  match p with
  | Null => Undefined
  | Ptr b off =>
      match block_contents h b with
      | Some l =>
          if decide (0 ≤ off ∧ 0 ≤ n ∧ off + n ≤ Z.of_nat (length l))
          then Ret (take (Z.to_nat n) (drop (Z.to_nat off) l))
          else Undefined
      | None => Undefined
      end
  end.

(** [Traits::compare(p, q, n)] *)
Definition Traits_compare_at (h : gmap positive (list CharT))
  (p q : pointer) (n : Z) : outcome Z :=
  lp ← load h p n;
  lq ← load h q n;
  mret (Traits_compare lp lq).

(** [Traits::length(p)]: the least [i] with [eq(p[i], CharT())]. *)
Definition Traits_length (h : gmap positive (list CharT)) (p : pointer)
  : outcome Z :=
  match p with
  | Null => Undefined
  | Ptr b off =>
      match block_contents h b with
      | Some l =>
          if decide (0 ≤ off ∧ off ≤ Z.of_nat (length l))
          then match list_find (λ c, Traits_eq c CharT_zero = true)
                       (drop (Z.to_nat off) l) with
               | Some (i, _) => Ret (Z.of_nat i)
               | None => Undefined
               end
          else Undefined
      | None => Undefined
      end
  end.

(** Every object is at most PTRDIFF_MAX characters long. *)
Definition heap_ok (h : gmap positive (list CharT)) : Prop :=
  map_Forall (λ _ l, Z.of_nat (length l) ≤ ptrdiff_max) h.
End Storage.

(** ** The view *)

(** [class BasicStringView]: the two private members. *)
Record BasicStringView : Type := {
  m_data : pointer;
  m_size : Z
}.

#[global] Instance BasicStringView_eq_dec : EqDecision BasicStringView.
Proof. solve_decision. Defined.

(** [std::basic_string], as far as the view looks at it: [data()] and
    [size()]. *)
Record basic_string : Type := {
  string_data : pointer;
  string_size : Z
}.

(** [BasicStringView()] *)
Definition BasicStringView_default : BasicStringView :=
  {| m_data := Ptr EmptyStringLiteral 0; m_size := to_size_t 0 |}.

(** [BasicStringView(const std::basic_string&)] *)
Definition BasicStringView_from_string (string : basic_string)
  : BasicStringView :=
  {| m_data := string_data string; m_size := string_size string |}.

(** [BasicStringView(const value_type (&array)[Size])] *)
Definition BasicStringView_from_array (array : pointer) (Size : Z)
  : BasicStringView :=
  {| m_data := array; m_size := to_size_t (Size - 1) |}.

(** [BasicStringView(const_pointer string, size_type size)] *)
Definition BasicStringView_from_pointer_size (string : pointer) (size : Z)
  : BasicStringView :=
  {| m_data := string; m_size := size |}.

Definition data (v : BasicStringView) : pointer := m_data v.

Definition size (v : BasicStringView) : Z := m_size v.

Definition empty (v : BasicStringView) : bool := size v =? to_size_t 0.

Definition cbegin (v : BasicStringView) : pointer := data v.

Definition begin (v : BasicStringView) : pointer := cbegin v.

Definition cend (v : BasicStringView) : pointer := ptr_add (cbegin v) (size v).

Definition end_ (v : BasicStringView) : pointer := cend v.

Section View.
Context {CharT : Type} `{!CharTraits CharT}.

(** [BasicStringView(Ty&& string)], from a null-terminated C string. *)
Definition BasicStringView_from_c_str (h : gmap positive (list CharT))
  (string : pointer) : outcome BasicStringView :=
  n ← Traits_length h string;
  mret {| m_data := string; m_size := n |}.

(** [operator[](position)] *)
Definition operator_index (h : gmap positive (list CharT))
  (v : BasicStringView) (position : Z) : outcome CharT :=
  deref h (ptr_add (data v) position).

(** [at(position)] *)
Definition at_ (h : gmap positive (list CharT)) (v : BasicStringView)
  (position : Z) : outcome CharT :=
  if position >? size v
  then Throw (out_of_range "BasicStringView::at position was out of bounds.")
  else operator_index h v position.

Definition front (h : gmap positive (list CharT)) (v : BasicStringView)
  : outcome CharT :=
  operator_index h v 0.

Definition back (h : gmap positive (list CharT)) (v : BasicStringView)
  : outcome CharT :=
  operator_index h v (to_size_t (size v - 1)).

(** [compare(this_type other)] *)
Definition compare (h : gmap positive (list CharT))
  (v other : BasicStringView) : outcome Z :=
  let length := Z.min (size v) (size other) in
  result ← Traits_compare_at h (data v) (data other) length;
  mret (if result =? 0
        then (if size v =? size other then 0
              else if size v <? size other then -1 else 1)
        else result).

(** [compare(const_pointer string)] *)
Definition compare_c_str (h : gmap positive (list CharT))
  (v : BasicStringView) (string : pointer) : outcome Z :=
  other ← BasicStringView_from_c_str h string;
  compare h v other.

(** [starts_with(value_type character)] *)
Definition starts_with_char (h : gmap positive (list CharT))
  (v : BasicStringView) (character : CharT) : outcome bool :=
  if negb (empty v)
  then c ← front h v; mret (Traits_eq character c)
  else mret false.

(** [starts_with(this_type stringView)] *)
Definition starts_with (h : gmap positive (list CharT))
  (v stringView : BasicStringView) : outcome bool :=
  if size v >=? size stringView
  then r ← Traits_compare_at h (data v) (data stringView) (size stringView);
       mret (r =? 0)
  else mret false.

(** [ends_with(value_type character)] *)
Definition ends_with_char (h : gmap positive (list CharT))
  (v : BasicStringView) (character : CharT) : outcome bool :=
  if negb (empty v)
  then c ← back h v; mret (Traits_eq character c)
  else mret false.

(** [ends_with(this_type stringView)] *)
Definition ends_with (h : gmap positive (list CharT))
  (v stringView : BasicStringView) : outcome bool :=
  if size v >=? size stringView
  then r ← Traits_compare_at h
             (ptr_sub (ptr_add (data v) (size v)) (size stringView))
             (data stringView) (size stringView);
       mret (r =? 0)
  else mret false.

(** The relational operators, all through [compare]. *)
Definition operator_eq (h : gmap positive (list CharT))
  (x y : BasicStringView) : outcome bool :=
  r ← compare h x y; mret (r =? 0).

Definition operator_ne (h : gmap positive (list CharT))
  (x y : BasicStringView) : outcome bool :=
  r ← operator_eq h x y; mret (negb r).

Definition operator_lt (h : gmap positive (list CharT))
  (x y : BasicStringView) : outcome bool :=
  r ← compare h x y; mret (r <? 0).

Definition operator_gt (h : gmap positive (list CharT))
  (x y : BasicStringView) : outcome bool :=
  r ← compare h x y; mret (r >? 0).

Definition operator_le (h : gmap positive (list CharT))
  (x y : BasicStringView) : outcome bool :=
  r ← compare h x y; mret (r <=? 0).

Definition operator_ge (h : gmap positive (list CharT))
  (x y : BasicStringView) : outcome bool :=
  r ← compare h x y; mret (r >=? 0).

(** [std::basic_string(first, last, allocator)]: a new block holding a copy
    of the range and a terminator. Allocation does not fail here. *)
Definition basic_string_from_range (h : gmap positive (list CharT))
  (first last : pointer)
  : outcome (gmap positive (list CharT) * basic_string) :=
  match first, last with
  | Ptr b off, Ptr b' off' =>
      if decide (b = b' ∧ off ≤ off')
      then l ← load h first (off' - off);
           let n := fresh (dom h) in
           mret (<[n := l ++ [CharT_zero]]> h,
                 {| string_data := Ptr (HeapBlock n) 0;
                    string_size := off' - off |})
      else Undefined
  | _, _ => Undefined
  end.

(** [to_string(allocator)] *)
Definition to_string (h : gmap positive (list CharT)) (v : BasicStringView)
  : outcome (gmap positive (list CharT) * basic_string) :=
  basic_string_from_range h (begin v) (end_ v).

(** The characters of the range [[data(), data() + size())]. *)
Definition viewed (h : gmap positive (list CharT)) (v : BasicStringView)
  : outcome (list CharT) :=
  load h (data v) (size v).

(** [v] views the characters [l] of [h], followed by their terminator:
    the invariant of the class ("shall always refer to a null-terminated
    string"). *)
Definition views (h : gmap positive (list CharT)) (v : BasicStringView)
  (l : list CharT) : Prop :=
  load h (data v) (size v + 1) = Ret (l ++ [CharT_zero]).

(** ** The functions that modify a view *)

(** The state of a program: the character storage and the view objects,
    each at its address. *)
Record machine : Type := Machine {
  chars : gmap positive (list CharT);
  objects : gmap positive BasicStringView
}.

Definition Exec (A : Type) : Type := machine → outcome (A * machine).

Definition exec_ret {A : Type} (a : A) : Exec A := λ s, Ret (a, s).

Definition exec_bind {A B : Type} (k : A → Exec B) (m : Exec A) : Exec B :=
  λ s, match m s with
       | Ret (a, s') => k a s'
       | Throw e => Throw e
       | Undefined => Undefined
       end.

#[global] Instance Exec_ret : MRet Exec := @exec_ret.
#[global] Instance Exec_bind : MBind Exec := @exec_bind.

(** Reading and assigning the members of the object at [this]. *)
Definition get_m_data (this : positive) : Exec pointer :=
  λ s, match objects s !! this with
       | Some v => Ret (m_data v, s)
       | None => Undefined
       end.

Definition get_m_size (this : positive) : Exec Z :=
  λ s, match objects s !! this with
       | Some v => Ret (m_size v, s)
       | None => Undefined
       end.

Definition set_m_data (this : positive) (p : pointer) : Exec unit :=
  λ s, match objects s !! this with
       | Some v =>
           Ret ((), Machine (chars s)
                      (<[this := {| m_data := p; m_size := m_size v |}]>
                         (objects s)))
       | None => Undefined
       end.

Definition set_m_size (this : positive) (n : Z) : Exec unit :=
  λ s, match objects s !! this with
       | Some v =>
           Ret ((), Machine (chars s)
                      (<[this := {| m_data := m_data v; m_size := n |}]>
                         (objects s)))
       | None => Undefined
       end.

(** [remove_prefix(charactersToRemove)] *)
Definition remove_prefix (this : positive) (charactersToRemove : Z)
  : Exec unit :=
  sz ← get_m_size this;
  let charactersToRemove :=
    if charactersToRemove >? sz then sz else charactersToRemove in
  d ← get_m_data this;
  set_m_data this (ptr_add d charactersToRemove);;
  n ← get_m_size this;
  set_m_size this (to_size_t (n - charactersToRemove)).

(** [swap(this_type& other)] *)
Definition swap (this other : positive) : Exec unit :=
  pointer ← get_m_data this;
  d ← get_m_data other;
  set_m_data this d;;
  set_m_data other pointer;;
  size ← get_m_size this;
  n ← get_m_size other;
  set_m_size this n;;
  set_m_size other size.

(** The free function [swap(first, second)]. *)
Definition swap_views (first second : positive) : Exec unit :=
  swap first second.

End View.

(** ** Iterators, literals and the mixed relational operators *)

(** [std::reverse_iterator<const_iterator>], by the iterator it wraps. *)
Record reverse_iterator : Type := {
  current : pointer
}.

Definition crbegin (v : BasicStringView) : reverse_iterator :=
  {| current := cend v |}.

Definition rbegin (v : BasicStringView) : reverse_iterator := crbegin v.

Definition crend (v : BasicStringView) : reverse_iterator :=
  {| current := cbegin v |}.

Definition rend (v : BasicStringView) : reverse_iterator := crend v.

(** [it + n] on a reverse iterator moves the wrapped iterator back. *)
Definition reverse_add (it : reverse_iterator) (n : Z) : reverse_iterator :=
  {| current := ptr_sub (current it) n |}.

(** [operator""_sv(string, size)] *)
Definition operator_sv (string : pointer) (size : Z) : BasicStringView :=
  BasicStringView_from_pointer_size string size.

(** An allocator, as far as the constructor of [std::basic_string] depends
    on it: the longest string it admits and whether it gives storage for a
    number of characters. *)
Record Allocator : Type := {
  max_size : Z;
  allocate : Z → bool
}.

Section Mixed.
Context {CharT : Type} `{!CharTraits CharT}.

(** [*it] on a reverse iterator reads the character before the wrapped
    iterator. *)
Definition reverse_deref (h : gmap positive (list CharT))
  (it : reverse_iterator) : outcome CharT :=
  deref h (ptr_sub (current it) 1).

(** [operator==] with a [std::basic_string] on the right and on the left. *)
Definition operator_eq_string_r (h : gmap positive (list CharT))
  (x : BasicStringView) (y : basic_string) : outcome bool :=
  operator_eq h x (BasicStringView_from_string y).

Definition operator_eq_string_l (h : gmap positive (list CharT))
  (x : basic_string) (y : BasicStringView) : outcome bool :=
  operator_eq h (BasicStringView_from_string x) y.

(** [operator==] with a C string on the right and on the left. *)
Definition operator_eq_c_str_r (h : gmap positive (list CharT))
  (x : BasicStringView) (y : pointer) : outcome bool :=
  v ← BasicStringView_from_c_str h y;
  operator_eq h x v.

Definition operator_eq_c_str_l (h : gmap positive (list CharT))
  (x : pointer) (y : BasicStringView) : outcome bool :=
  v ← BasicStringView_from_c_str h x;
  operator_eq h v y.

(** [operator!=] with a C string on the right and on the left. *)
Definition operator_ne_c_str_r (h : gmap positive (list CharT))
  (x : BasicStringView) (y : pointer) : outcome bool :=
  v ← BasicStringView_from_c_str h y;
  operator_ne h x v.

Definition operator_ne_c_str_l (h : gmap positive (list CharT))
  (x : pointer) (y : BasicStringView) : outcome bool :=
  v ← BasicStringView_from_c_str h x;
  operator_ne h v y.

(** [operator<] with a C string on the right and on the left. *)
Definition operator_lt_c_str_r (h : gmap positive (list CharT))
  (x : BasicStringView) (y : pointer) : outcome bool :=
  v ← BasicStringView_from_c_str h y;
  operator_lt h x v.

Definition operator_lt_c_str_l (h : gmap positive (list CharT))
  (x : pointer) (y : BasicStringView) : outcome bool :=
  v ← BasicStringView_from_c_str h x;
  operator_lt h v y.

(** [operator>] with a C string on the right and on the left. *)
Definition operator_gt_c_str_r (h : gmap positive (list CharT))
  (x : BasicStringView) (y : pointer) : outcome bool :=
  v ← BasicStringView_from_c_str h y;
  operator_gt h x v.

Definition operator_gt_c_str_l (h : gmap positive (list CharT))
  (x : pointer) (y : BasicStringView) : outcome bool :=
  v ← BasicStringView_from_c_str h x;
  operator_gt h v y.

(** [to_string(allocator)] with the failures of the constructor of
    [std::basic_string]: a range longer than [max_size()] ends in
    [std::length_error], storage the allocator does not give in
    [std::bad_alloc]; otherwise the string is made as in
    [basic_string_from_range]. *)
Definition basic_string_from_range_alloc (allocator : Allocator)
  (h : gmap positive (list CharT)) (first last : pointer)
  : outcome (gmap positive (list CharT) * basic_string) :=
  match first, last with
  | Ptr b off, Ptr b' off' =>
      if decide (b = b' ∧ off ≤ off')
      then l ← load h first (off' - off);
           if off' - off >? max_size allocator then Throw length_error
           else if allocate allocator (off' - off + 1)
           then let n := fresh (dom h) in
                mret (<[n := l ++ [CharT_zero]]> h,
                      {| string_data := Ptr (HeapBlock n) 0;
                         string_size := off' - off |})
           else Throw bad_alloc
      else Undefined
  | _, _ => Undefined
  end.

Definition to_string_alloc (allocator : Allocator)
  (h : gmap positive (list CharT)) (v : BasicStringView)
  : outcome (gmap positive (list CharT) * basic_string) :=
  basic_string_from_range_alloc allocator h (begin v) (end_ v).

End Mixed.

(** ** An instance: [char] with [std::char_traits<char>] *)

(** [std::char_traits<char>::compare] as libstdc++ evaluates it in a constant
    expression: the first position where [lt] separates the characters
    decides, with -1 or 1. *)
Fixpoint char_compare (p q : list Z) : Z :=
  match p, q with
  | c :: p', d :: q' =>
      if c <? d then -1 else if d <? c then 1 else char_compare p' q'
  | _, _ => 0
  end.

#[global] Instance char_traits : CharTraits Z := {|
  CharT_zero := 0;
  Traits_eq := Z.eqb;
  Traits_lt := Z.ltb;
  Traits_compare := char_compare
|}.

(** The strings ["hello"], ["abc"] and ["abd"] with their terminators. *)
Definition hello_chars : list Z := [104; 101; 108; 108; 111].
Definition abc_chars : list Z := [97; 98; 99].
Definition abd_chars : list Z := [97; 98; 100].

Definition example_heap : gmap positive (list Z) :=
  <[1%positive := hello_chars ++ [0]]>
    (<[2%positive := abc_chars ++ [0]]>
       (<[3%positive := abd_chars ++ [0]]> ∅)).

Definition hello : BasicStringView :=
  BasicStringView_from_pointer_size (Ptr (HeapBlock 1) 0) 5.
Definition abc : BasicStringView :=
  BasicStringView_from_pointer_size (Ptr (HeapBlock 2) 0) 3.
Definition abd : BasicStringView :=
  BasicStringView_from_pointer_size (Ptr (HeapBlock 3) 0) 3.
Definition he : BasicStringView :=
  BasicStringView_from_pointer_size (Ptr (HeapBlock 1) 0) 2.

(** An allocator that gives storage for up to PTRDIFF_MAX characters, and
    one that has none left. *)
Definition plentiful_allocator : Allocator :=
  {| max_size := ptrdiff_max; allocate := λ _, true |}.
Definition exhausted_allocator : Allocator :=
  {| max_size := ptrdiff_max; allocate := λ _, false |}.

(** Two view objects, at addresses 1 and 2, and a third at 3 that looks
    into the same block as the first. *)
Definition example_machine : machine :=
  Machine example_heap
    (<[1%positive := hello]>
       (<[2%positive := abc]>
          (<[3%positive := {| m_data := Ptr (HeapBlock 1) 2; m_size := 3 |}]>
             ∅))).

(** ** Scenarios of the specification, by evaluation *)

Example hello_from_c_str :
  BasicStringView_from_c_str example_heap (Ptr (HeapBlock 1) 0) = Ret hello.
Proof. vm_compute. reflexivity. Qed.

Example hello_front_back :
  front example_heap hello = Ret 104 ∧ back example_heap hello = Ret 111.
Proof. split; vm_compute; reflexivity. Qed.

Example hello_compare_c_str :
  compare_c_str example_heap hello (Ptr (HeapBlock 1) 0) = Ret 0.
Proof. vm_compute. reflexivity. Qed.

Example abc_abd_compare :
  compare example_heap abc abd = Ret (-1).
Proof. vm_compute. reflexivity. Qed.

Example hello_starts_with_he :
  starts_with example_heap hello he = Ret true.
Proof. vm_compute. reflexivity. Qed.

Example hello_ends_with_llo :
  ends_with example_heap hello {| m_data := Ptr (HeapBlock 1) 2; m_size := 3 |}
  = Ret true.
Proof. vm_compute. reflexivity. Qed.

Example hello_to_string :
  (λ '(h, s), (h !! 4%positive, s)) <$> to_string example_heap hello
  = Ret (Some (hello_chars ++ [0]),
         {| string_data := Ptr (HeapBlock 4) 0; string_size := 5 |}).
Proof. vm_compute. reflexivity. Qed.

Example hello_at_6 :
  at_ example_heap hello 6
  = Throw (out_of_range "BasicStringView::at position was out of bounds.").
Proof. vm_compute. reflexivity. Qed.

Example default_view_back :
  empty BasicStringView_default = true ∧
  back example_heap BasicStringView_default = Undefined.
Proof. split; vm_compute; reflexivity. Qed.

Example hello_to_string_exhausted :
  to_string_alloc exhausted_allocator example_heap hello = Throw bad_alloc.
Proof. vm_compute. reflexivity. Qed.

Example hello_to_string_plentiful :
  to_string_alloc plentiful_allocator example_heap hello
  = to_string example_heap hello.
Proof. vm_compute. reflexivity. Qed.

(** The sum of two counts wraps in [std::size_t]: removing 2^64 - 1 and
    then 2 characters empties the view, removing their wrapped sum, 1,
    does not. *)
Example hello_remove_prefix_wrapped_sum :
  (λ '(_, s), objects s !! 1%positive)
    <$> (remove_prefix 1 (2 ^ 64 - 1) ;; remove_prefix 1 2) example_machine
  = Ret (Some {| m_data := Ptr (HeapBlock 1) 5; m_size := 0 |}) ∧
  (λ '(_, s), objects s !! 1%positive)
    <$> remove_prefix 1 (to_size_t (2 ^ 64 - 1 + 2)) example_machine
  = Ret (Some {| m_data := Ptr (HeapBlock 1) 1; m_size := 4 |}).
Proof. split; vm_compute; reflexivity. Qed.

Example hello_remove_prefix :
  (λ '(_, s), objects s !! 1%positive) <$> remove_prefix 1 2 example_machine
  = Ret (Some {| m_data := Ptr (HeapBlock 1) 2; m_size := 3 |}).
Proof. vm_compute. reflexivity. Qed.

(** ** Facts about the outcome monad *)

Lemma nothrow_Ret {A : Type} (a : A) : nothrow (Ret a).
Proof. intros e; discriminate. Qed.

Lemma nothrow_Undefined {A : Type} : nothrow (@Undefined A).
Proof. intros e; discriminate. Qed.

Lemma nothrow_bind {A B : Type} (m : outcome A) (k : A → outcome B) :
  nothrow m → (∀ a, nothrow (k a)) → nothrow (m ≫= k).
Proof.
  intros Hm Hk e. destruct m as [a|e'|]; simpl.
  - apply Hk.
  - exfalso. exact (Hm e' eq_refl).
  - discriminate.
Qed.

Create HintDb nothrow.
#[local] Hint Resolve nothrow_Ret nothrow_Undefined : nothrow.

(** ** Facts about the storage *)

Section StorageFacts.
Context {CharT : Type} `{!CharTraits CharT}.
Implicit Types (h : gmap positive (list CharT)) (l : list CharT).

Lemma load_Ret_inv h p n l :
  load h p n = Ret l →
  ∃ b off lb,
    p = Ptr b off ∧ block_contents h b = Some lb ∧
    0 ≤ off ∧ 0 ≤ n ∧ off + n ≤ Z.of_nat (length lb) ∧
    l = take (Z.to_nat n) (drop (Z.to_nat off) lb).
Proof.
  unfold load. destruct p as [|b off]; [discriminate|].
  destruct (block_contents h b) as [lb|] eqn:Hb; [|discriminate].
  case_decide as Hr; [|discriminate].
  intros [= <-]. exists b, off, lb. intuition.
Qed.

Lemma load_Ret_intro h b off lb n :
  block_contents h b = Some lb →
  0 ≤ off → 0 ≤ n → off + n ≤ Z.of_nat (length lb) →
  load h (Ptr b off) n = Ret (take (Z.to_nat n) (drop (Z.to_nat off) lb)).
Proof.
  intros Hb ? ? ?. unfold load. rewrite Hb.
  case_decide as Hr; [reflexivity|]. exfalso. apply Hr. auto.
Qed.

Lemma load_length h p n l :
  load h p n = Ret l → 0 ≤ n ∧ length l = Z.to_nat n.
Proof.
  intros (b & off & lb & -> & Hb & ? & ? & ? & ->)%load_Ret_inv.
  split; [assumption|].
  rewrite length_take, length_drop. lia.
Qed.

(** A range inside a readable range is readable. *)
Lemma load_sub h p n l k m :
  load h p n = Ret l →
  0 ≤ k → 0 ≤ m → k + m ≤ n →
  load h (ptr_add p k) m = Ret (take (Z.to_nat m) (drop (Z.to_nat k) l)).
Proof.
  intros (b & off & lb & -> & Hb & ? & ? & ? & ->)%load_Ret_inv ? ? ?.
  cbn [ptr_add].
  rewrite (load_Ret_intro h b (off + k) lb m) by (assumption || lia).
  f_equal.
  replace (Z.to_nat n) with (Z.to_nat k + (Z.to_nat n - Z.to_nat k))%nat
    by lia.
  rewrite <- take_drop_commute, take_take, drop_drop.
  rewrite Z2Nat.inj_add by lia.
  f_equal. lia.
Qed.

Lemma load_prefix h p n l m :
  load h p n = Ret l → 0 ≤ m → m ≤ n →
  load h p m = Ret (take (Z.to_nat m) l).
Proof.
  intros Hl ? ?.
  pose proof (load_sub h p n l 0 m Hl) as Hs.
  destruct p as [|b off]; [discriminate|].
  cbn [ptr_add] in Hs. rewrite Z.add_0_r in Hs. apply Hs; lia.
Qed.

(** A character of a readable range is readable. *)
Lemma load_deref h p n l (i : nat) c :
  load h p n = Ret l → l !! i = Some c →
  deref h (ptr_add p (Z.of_nat i)) = Ret c.
Proof.
  intros (b & off & lb & -> & Hb & ? & ? & ? & ->)%load_Ret_inv Hi.
  apply lookup_take_Some in Hi as [Hi ?].
  rewrite lookup_drop in Hi.
  cbn [ptr_add]. unfold deref. rewrite Hb.
  apply lookup_lt_Some in Hi as Hlt.
  case_decide; [|lia].
  rewrite Z2Nat.inj_add, Nat2Z.id by lia. rewrite Hi. reflexivity.
Qed.

(** Reading does not depend on blocks allocated later. *)
Lemma load_insert_fresh h p n l (b : positive) lb :
  h !! b = None → load h p n = Ret l → load (<[b := lb]> h) p n = Ret l.
Proof.
  intros Hfresh (b' & off & lb' & -> & Hb & ? & ? & ? & ->)%load_Ret_inv.
  apply load_Ret_intro; try assumption.
  destruct b' as [|b']; simpl in *; [assumption|].
  rewrite lookup_insert_ne; [assumption|]. congruence.
Qed.

Lemma nothrow_deref h p : nothrow (deref h p).
Proof.
  unfold deref. destruct p as [|b off]; auto with nothrow.
  destruct (block_contents h b); auto with nothrow.
  case_decide; auto with nothrow.
  destruct (_ !! _); auto with nothrow.
Qed.

Lemma nothrow_load h p n : nothrow (load h p n).
Proof.
  unfold load. destruct p as [|b off]; auto with nothrow.
  destruct (block_contents h b); auto with nothrow.
  case_decide; auto with nothrow.
Qed.

Lemma nothrow_Traits_compare_at h p q n : nothrow (Traits_compare_at h p q n).
Proof.
  unfold Traits_compare_at.
  apply nothrow_bind; [apply nothrow_load|]. intros lp.
  apply nothrow_bind; [apply nothrow_load|]. intros lq.
  apply nothrow_Ret.
Qed.

Lemma Traits_compare_at_Ret h p q n lp lq :
  load h p n = Ret lp → load h q n = Ret lq →
  Traits_compare_at h p q n = Ret (Traits_compare lp lq).
Proof. intros Hp Hq. unfold Traits_compare_at. rewrite Hp; simpl. rewrite Hq. reflexivity. Qed.

End StorageFacts.

(** ** Facts about views *)

Section ViewFacts.
Context {CharT : Type} `{!CharTraits CharT}.
Implicit Types (h : gmap positive (list CharT)) (l : list CharT).
Implicit Types (v : BasicStringView).

Lemma to_size_t_0 : to_size_t 0 = 0.
Proof. reflexivity. Qed.

Lemma empty_size v : empty v = true ↔ size v = 0.
Proof. unfold empty. rewrite to_size_t_0. apply Z.eqb_eq. Qed.

(** What the invariant gives: the viewed range is readable, and as long as
    the view says. *)
Lemma views_load h v l :
  views h v l →
  0 ≤ size v ∧ length l = Z.to_nat (size v) ∧ viewed h v = Ret l.
Proof.
  unfold views. intros Hv.
  destruct (load_length _ _ _ _ Hv) as [Hn Hlen].
  rewrite length_app in Hlen. simpl in Hlen.
  assert (0 ≤ size v) by lia.
  assert (length l = Z.to_nat (size v)) as Hl by lia.
  split; [assumption|]. split; [assumption|]. unfold viewed.
  rewrite (load_prefix h (data v) (size v + 1) (l ++ [CharT_zero]) (size v))
    by (assumption || lia).
  rewrite <- Hl, take_app_length. reflexivity.
Qed.

Lemma views_index h v l (i : nat) c :
  views h v l → (l ++ [CharT_zero]) !! i = Some c →
  operator_index h v (Z.of_nat i) = Ret c.
Proof. intros Hv Hi. unfold operator_index. exact (load_deref _ _ _ _ _ _ Hv Hi). Qed.

Lemma views_terminator h v l :
  views h v l → operator_index h v (size v) = Ret CharT_zero.
Proof.
  intros Hv. destruct (views_load _ _ _ Hv) as (Hn & Hlen & _).
  rewrite <- (Z2Nat.id (size v)) by assumption.
  apply (views_index h v l); [assumption|].
  rewrite <- Hlen. apply list_lookup_middle. reflexivity.
Qed.

Lemma viewed_length h v l :
  viewed h v = Ret l → 0 ≤ size v ∧ length l = Z.to_nat (size v).
Proof. apply load_length. Qed.

(** The part of a view from position [k] on, [m] characters long. *)
Lemma viewed_sub h v l k m :
  viewed h v = Ret l → 0 ≤ k → 0 ≤ m → k + m ≤ size v →
  load h (ptr_add (data v) k) m = Ret (take (Z.to_nat m) (drop (Z.to_nat k) l)).
Proof. intros Hv ? ? ?. apply (load_sub h (data v) (size v)); assumption. Qed.

Lemma viewed_prefix h v l m :
  viewed h v = Ret l → 0 ≤ m → m ≤ size v →
  load h (data v) m = Ret (take (Z.to_nat m) l).
Proof. intros Hv ? ?. apply (load_prefix h (data v) (size v)); assumption. Qed.

Lemma nothrow_operator_index h v position :
  nothrow (operator_index h v position).
Proof. apply nothrow_deref. Qed.

Lemma nothrow_compare h v other : nothrow (compare h v other).
Proof.
  unfold compare. apply nothrow_bind; [apply nothrow_Traits_compare_at|].
  intros r. apply nothrow_Ret.
Qed.

Lemma nothrow_starts_with h v stringView : nothrow (starts_with h v stringView).
Proof.
  unfold starts_with. destruct (_ >=? _); [|apply nothrow_Ret].
  apply nothrow_bind; [apply nothrow_Traits_compare_at|].
  intros r. apply nothrow_Ret.
Qed.

Lemma nothrow_ends_with h v stringView : nothrow (ends_with h v stringView).
Proof.
  unfold ends_with. destruct (_ >=? _); [|apply nothrow_Ret].
  apply nothrow_bind; [apply nothrow_Traits_compare_at|].
  intros r. apply nothrow_Ret.
Qed.

Lemma nothrow_starts_with_char h v c : nothrow (starts_with_char h v c).
Proof.
  unfold starts_with_char, front. destruct (negb _); [|apply nothrow_Ret].
  apply nothrow_bind; [apply nothrow_operator_index|].
  intros r. apply nothrow_Ret.
Qed.

Lemma nothrow_ends_with_char h v c : nothrow (ends_with_char h v c).
Proof.
  unfold ends_with_char, back. destruct (negb _); [|apply nothrow_Ret].
  apply nothrow_bind; [apply nothrow_operator_index|].
  intros r. apply nothrow_Ret.
Qed.

(** [to_string] ends in no exception but the two of the constructor of
    [std::basic_string]. *)
Lemma to_string_alloc_Throw allocator h v e :
  to_string_alloc allocator h v = Throw e →
  (e = length_error ∧ size v > max_size allocator) ∨
  (e = bad_alloc ∧ allocate allocator (size v + 1) = false).
Proof.
  unfold to_string_alloc, basic_string_from_range_alloc, begin, end_, cend,
    cbegin.
  destruct (data v) as [|b off]; [discriminate|]. cbn [ptr_add].
  case_decide; [|discriminate].
  replace (off + size v - off) with (size v) by lia.
  destruct (load h (Ptr b off) (size v)) as [l|e'|] eqn:Hl;
    [|exfalso; exact (nothrow_load _ _ _ e' Hl)|discriminate].
  simpl. destruct (Z.gtb_spec (size v) (max_size allocator)).
  - intros [= <-]. left. split; [reflexivity|lia].
  - destruct (allocate allocator (size v + 1)) eqn:Ha; [discriminate|].
    intros [= <-]. right. split; reflexivity.
Qed.

(** With storage given, [to_string] is the copy of [basic_string_from_range]. *)
Lemma to_string_alloc_succeeds allocator h v :
  size v ≤ max_size allocator → allocate allocator (size v + 1) = true →
  to_string_alloc allocator h v = to_string h v.
Proof.
  intros Hmax Ha.
  unfold to_string_alloc, to_string, basic_string_from_range_alloc,
    basic_string_from_range, begin, end_, cend, cbegin.
  destruct (data v) as [|b off]; [reflexivity|]. cbn [ptr_add].
  case_decide; [|reflexivity].
  replace (off + size v - off) with (size v) by lia.
  destruct (load h (Ptr b off) (size v)) as [l|e'|]; try reflexivity.
  simpl. destruct (Z.gtb_spec (size v) (max_size allocator)); [lia|].
  rewrite Ha. reflexivity.
Qed.

Lemma nothrow_from_c_str h string :
  nothrow (BasicStringView_from_c_str h string).
Proof.
  unfold BasicStringView_from_c_str. apply nothrow_bind.
  - unfold Traits_length. destruct string as [|b off]; auto with nothrow.
    destruct (block_contents h b); auto with nothrow.
    case_decide; auto with nothrow.
    destruct (list_find _ _) as [[i c]|]; auto with nothrow.
  - intros n. apply nothrow_Ret.
Qed.

Lemma nothrow_compare_c_str h v string : nothrow (compare_c_str h v string).
Proof.
  unfold compare_c_str. apply nothrow_bind; [apply nothrow_from_c_str|].
  intros other. apply nothrow_compare.
Qed.

Lemma nothrow_operator_eq h x y : nothrow (operator_eq h x y).
Proof.
  unfold operator_eq. apply nothrow_bind; [apply nothrow_compare|].
  intros r. apply nothrow_Ret.
Qed.

Lemma nothrow_operator_ne h x y : nothrow (operator_ne h x y).
Proof.
  unfold operator_ne. apply nothrow_bind; [apply nothrow_operator_eq|].
  intros r. apply nothrow_Ret.
Qed.

Lemma nothrow_operator_lt h x y : nothrow (operator_lt h x y).
Proof.
  unfold operator_lt. apply nothrow_bind; [apply nothrow_compare|].
  intros r. apply nothrow_Ret.
Qed.

Lemma nothrow_operator_gt h x y : nothrow (operator_gt h x y).
Proof.
  unfold operator_gt. apply nothrow_bind; [apply nothrow_compare|].
  intros r. apply nothrow_Ret.
Qed.

Lemma nothrow_operator_le h x y : nothrow (operator_le h x y).
Proof.
  unfold operator_le. apply nothrow_bind; [apply nothrow_compare|].
  intros r. apply nothrow_Ret.
Qed.

Lemma nothrow_operator_ge h x y : nothrow (operator_ge h x y).
Proof.
  unfold operator_ge. apply nothrow_bind; [apply nothrow_compare|].
  intros r. apply nothrow_Ret.
Qed.

End ViewFacts.

(** ** Facts about the functions that modify a view *)

Section ExecFacts.
Context {CharT : Type} `{!CharTraits CharT}.
Implicit Types (s : @machine CharT) (v : BasicStringView).

Lemma exec_bind_Ret {A B : Type} (m : Exec A) (k : A → Exec B) s a s' :
  m s = Ret (a, s') → (m ≫= k) s = k a s'.
Proof. intros Hm. unfold mbind, Exec_bind, exec_bind. rewrite Hm. reflexivity. Qed.

Lemma get_m_data_Ret this s v :
  objects s !! this = Some v → get_m_data this s = Ret (m_data v, s).
Proof. intros Hv. unfold get_m_data. rewrite Hv. reflexivity. Qed.

Lemma get_m_size_Ret this s v :
  objects s !! this = Some v → get_m_size this s = Ret (m_size v, s).
Proof. intros Hv. unfold get_m_size. rewrite Hv. reflexivity. Qed.

Lemma set_m_data_Ret this p s v :
  objects s !! this = Some v →
  set_m_data this p s
  = Ret ((), Machine (chars s)
               (<[this := {| m_data := p; m_size := m_size v |}]> (objects s))).
Proof. intros Hv. unfold set_m_data. rewrite Hv. reflexivity. Qed.

Lemma set_m_size_Ret this n s v :
  objects s !! this = Some v →
  set_m_size this n s
  = Ret ((), Machine (chars s)
               (<[this := {| m_data := m_data v; m_size := n |}]> (objects s))).
Proof. intros Hv. unfold set_m_size. rewrite Hv. reflexivity. Qed.

Lemma nothrow_exec_bind {A B : Type} (m : Exec A) (k : A → Exec B) s :
  nothrow (m s) → (∀ a s', nothrow (k a s')) → nothrow ((m ≫= k) s).
Proof.
  intros Hm Hk e. unfold mbind, Exec_bind, exec_bind.
  destruct (m s) as [[a s']|e'|] eqn:Hms.
  - apply Hk.
  - exfalso. exact (Hm e' eq_refl).
  - discriminate.
Qed.

Lemma nothrow_get_m_data this s : nothrow (get_m_data this s).
Proof. unfold get_m_data. destruct (_ !! _); auto with nothrow. Qed.

Lemma nothrow_get_m_size this s : nothrow (get_m_size this s).
Proof. unfold get_m_size. destruct (_ !! _); auto with nothrow. Qed.

Lemma nothrow_set_m_data this p s : nothrow (set_m_data this p s).
Proof. unfold set_m_data. destruct (_ !! _); auto with nothrow. Qed.

Lemma nothrow_set_m_size this n s : nothrow (set_m_size this n s).
Proof. unfold set_m_size. destruct (_ !! _); auto with nothrow. Qed.

#[local] Hint Resolve nothrow_get_m_data nothrow_get_m_size
  nothrow_set_m_data nothrow_set_m_size : nothrow.

Lemma nothrow_remove_prefix this n s : nothrow (remove_prefix this n s).
Proof.
  unfold remove_prefix.
  repeat (apply nothrow_exec_bind; [auto with nothrow|]; intros).
  auto with nothrow.
Qed.

Lemma nothrow_swap this other s : nothrow (swap this other s).
Proof.
  unfold swap.
  repeat (apply nothrow_exec_bind; [auto with nothrow|]; intros).
  auto with nothrow.
Qed.

(** [remove_prefix] as one assignment to the object. *)
Lemma remove_prefix_Ret this n s v :
  objects s !! this = Some v →
  remove_prefix this n s
  = Ret ((), Machine (chars s)
               (<[this :=
                    let k := if n >? m_size v then m_size v else n in
                    {| m_data := ptr_add (m_data v) k;
                       m_size := to_size_t (m_size v - k) |}]> (objects s))).
Proof.
  intros Hv. unfold remove_prefix.
  rewrite (exec_bind_Ret _ _ _ _ _ (get_m_size_Ret _ _ _ Hv)).
  rewrite (exec_bind_Ret _ _ _ _ _ (get_m_data_Ret _ _ _ Hv)).
  rewrite (exec_bind_Ret _ _ _ _ _ (set_m_data_Ret _ _ _ _ Hv)).
  set (s1 := Machine _ _).
  assert (objects s1 !! this = Some
            {| m_data := ptr_add (m_data v) (if n >? m_size v then m_size v else n);
               m_size := m_size v |}) as H1
    by (subst s1; simpl; apply lookup_insert_eq).
  rewrite (exec_bind_Ret _ _ _ _ _ (get_m_size_Ret _ _ _ H1)).
  rewrite (set_m_size_Ret _ _ _ _ H1).
  subst s1; simpl. rewrite insert_insert_eq. reflexivity.
Qed.

(** [swap] as two assignments; the references may be equal. *)
Lemma swap_Ret this other s v w :
  objects s !! this = Some v → objects s !! other = Some w →
  swap this other s
  = Ret ((), Machine (chars s) (<[other := v]> (<[this := w]> (objects s)))).
Proof.
  intros Hv Hw. unfold swap.
  rewrite (exec_bind_Ret _ _ _ _ _ (get_m_data_Ret _ _ _ Hv)).
  rewrite (exec_bind_Ret _ _ _ _ _ (get_m_data_Ret _ _ _ Hw)).
  rewrite (exec_bind_Ret _ _ _ _ _ (set_m_data_Ret _ _ _ _ Hv)).
  destruct (decide (this = other)) as [->|Hne].
  - assert (w = v) as -> by congruence.
    set (s1 := Machine _ _).
    assert (objects s1 !! other = Some v) as H1.
    { subst s1; simpl. rewrite lookup_insert_eq. destruct v; reflexivity. }
    rewrite (exec_bind_Ret _ _ _ _ _ (set_m_data_Ret _ _ _ _ H1)).
    subst s1. cbn [chars objects]. rewrite insert_insert_eq.
    set (s2 := Machine _ _).
    assert (objects s2 !! other = Some v) as H2.
    { subst s2; simpl. rewrite lookup_insert_eq. destruct v; reflexivity. }
    rewrite (exec_bind_Ret _ _ _ _ _ (get_m_size_Ret _ _ _ H2)).
    rewrite (exec_bind_Ret _ _ _ _ _ (get_m_size_Ret _ _ _ H2)).
    rewrite (exec_bind_Ret _ _ _ _ _ (set_m_size_Ret _ _ _ _ H2)).
    subst s2. cbn [chars objects]. rewrite insert_insert_eq.
    set (s3 := Machine _ _).
    assert (objects s3 !! other = Some v) as H3.
    { subst s3; simpl. rewrite lookup_insert_eq. destruct v; reflexivity. }
    rewrite (set_m_size_Ret _ _ _ _ H3).
    subst s3. cbn [chars objects]. rewrite !insert_insert_eq.
    destruct v; reflexivity.
  - set (s1 := Machine _ _).
    assert (objects s1 !! other = Some w) as H1.
    { subst s1; simpl. rewrite lookup_insert_ne by assumption. assumption. }
    rewrite (exec_bind_Ret _ _ _ _ _ (set_m_data_Ret _ _ _ _ H1)).
    subst s1. cbn [chars objects].
    set (s2 := Machine _ _).
    assert (objects s2 !! this
            = Some {| m_data := m_data w; m_size := m_size v |}) as H2.
    { subst s2; simpl. rewrite lookup_insert_ne by congruence.
      apply lookup_insert_eq. }
    assert (objects s2 !! other
            = Some {| m_data := m_data v; m_size := m_size w |}) as H2'.
    { subst s2; simpl. apply lookup_insert_eq. }
    rewrite (exec_bind_Ret _ _ _ _ _ (get_m_size_Ret _ _ _ H2)).
    rewrite (exec_bind_Ret _ _ _ _ _ (get_m_size_Ret _ _ _ H2')).
    rewrite (exec_bind_Ret _ _ _ _ _ (set_m_size_Ret _ _ _ _ H2)).
    subst s2. cbn [chars objects m_data m_size].
    set (s3 := Machine _ _).
    assert (objects s3 !! other
            = Some {| m_data := m_data v; m_size := m_size w |}) as H3.
    { subst s3; simpl. rewrite lookup_insert_ne by assumption.
      apply lookup_insert_eq. }
    rewrite (set_m_size_Ret _ _ _ _ H3).
    subst s3. cbn [chars objects m_data m_size].
    do 2 f_equal. f_equal.
    apply map_eq. intros i.
    destruct (decide (i = other)) as [->|Hio].
    { rewrite !lookup_insert_eq. destruct v; reflexivity. }
    destruct (decide (i = this)) as [->|Hit].
    { repeat first [rewrite lookup_insert_eq
                   | rewrite lookup_insert_ne by congruence].
      destruct w; reflexivity. }
    repeat (rewrite lookup_insert_ne by congruence). reflexivity.
Qed.

End ExecFacts.

(** ** Facts about the traits *)

Section TraitsFacts.
Context {CharT : Type} `{!CharTraits CharT}.
Context {order : TraitsOrder}.
Implicit Types (c d e : CharT) (p q r : list CharT).

Lemma Traits_eq_refl c : Traits_eq c c = true.
Proof. apply Traits_eq_lt. split; apply Traits_lt_irrefl. Qed.

Lemma Traits_eq_sym c d : Traits_eq c d = true → Traits_eq d c = true.
Proof. rewrite !Traits_eq_lt. tauto. Qed.

Lemma Traits_lt_asym c d : Traits_lt c d = true → Traits_lt d c = false.
Proof.
  intros Hcd. destruct (Traits_lt d c) eqn:Hdc; [|reflexivity].
  pose proof (Traits_lt_trans _ _ _ Hcd Hdc) as Hcc.
  rewrite Traits_lt_irrefl in Hcc. discriminate.
Qed.

Lemma Traits_lt_eq_r c d e :
  Traits_lt c d = true → Traits_eq d e = true → Traits_lt c e = true.
Proof.
  intros Hcd Hde. destruct (Traits_lt c e) eqn:Hce; [reflexivity|].
  exfalso. destruct (Traits_lt e c) eqn:Hec.
  - pose proof (Traits_lt_trans _ _ _ Hec Hcd) as Hed.
    apply Traits_eq_lt in Hde as [_ Hde]. congruence.
  - assert (Traits_eq c e = true) as Heq by (apply Traits_eq_lt; auto).
    pose proof (Traits_eq_trans _ _ _ Heq (Traits_eq_sym _ _ Hde)) as Hcd'.
    apply Traits_eq_lt in Hcd' as [Hcd' _]. congruence.
Qed.

Lemma Traits_lt_eq_l c d e :
  Traits_eq c d = true → Traits_lt d e = true → Traits_lt c e = true.
Proof.
  intros Hcd Hde. destruct (Traits_lt c e) eqn:Hce; [reflexivity|].
  exfalso. destruct (Traits_lt e c) eqn:Hec.
  - pose proof (Traits_lt_trans _ _ _ Hde Hec) as Hdc.
    apply Traits_eq_lt in Hcd as [_ Hcd]. congruence.
  - assert (Traits_eq e c = true) as Heq by (apply Traits_eq_lt; auto).
    pose proof (Traits_eq_trans _ _ _ Heq Hcd) as Hed.
    apply Traits_eq_lt in Hed as [_ Hed]. congruence.
Qed.

Lemma ranges_eq_refl p : ranges_eq p p.
Proof. induction p; constructor; auto using Traits_eq_refl. Qed.

Lemma lexicographic_Eq p q : lexicographic p q = Eq ↔ ranges_eq p q.
Proof.
  revert q. induction p as [|c p IH]; intros [|d q]; simpl.
  - split; [constructor|reflexivity].
  - split; [discriminate|]. intros Hf. inversion Hf.
  - split; [discriminate|]. intros Hf. inversion Hf.
  - destruct (Traits_lt c d) eqn:Hcd.
    { split; [discriminate|]. intros Hf. inversion Hf as [|? ? ? ? Heq]; subst.
      apply Traits_eq_lt in Heq as [? _]. congruence. }
    destruct (Traits_lt d c) eqn:Hdc.
    { split; [discriminate|]. intros Hf. inversion Hf as [|? ? ? ? Heq]; subst.
      apply Traits_eq_lt in Heq as [_ ?]. congruence. }
    rewrite IH. split.
    + intros Hf. constructor; [|assumption]. apply Traits_eq_lt. auto.
    + intros Hf. inversion Hf; subst. assumption.
Qed.

(** On ranges of one length, [Lt] is: [lt] at the first difference. *)
Lemma lexicographic_Lt p q :
  length p = length q →
  lexicographic p q = Lt ↔
  ∃ (j : nat) c d,
    p !! j = Some c ∧ q !! j = Some d ∧ Traits_lt c d = true ∧
    ranges_eq (take j p) (take j q).
Proof.
  revert q. induction p as [|c p IH]; intros [|d q] Hlen; simpl in Hlen;
    try discriminate.
  - simpl. split; [discriminate|]. intros (j & c & d & Hj & _). 
    rewrite lookup_nil in Hj. discriminate.
  - injection Hlen as Hlen. simpl.
    destruct (Traits_lt c d) eqn:Hcd.
    { split; [|reflexivity]. intros _. exists 0%nat, c, d.
      repeat split; try assumption. constructor. }
    split.
    + destruct (Traits_lt d c) eqn:Hdc; [discriminate|].
      intros (j & c' & d' & Hp & Hq & Hlt & Hpre)%IH; [|assumption].
      exists (S j), c', d'. repeat split; try assumption.
      simpl. constructor; [|assumption]. apply Traits_eq_lt. auto.
    + intros (j & c' & d' & Hp & Hq & Hlt & Hpre).
      destruct j as [|j]; simpl in *.
      { injection Hp as ->. injection Hq as ->. congruence. }
      inversion Hpre as [|? ? ? ? Heq Hpre']; subst.
      apply Traits_eq_lt in Heq as [_ ->].
      apply IH; [assumption|]. exists j, c', d'. auto.
Qed.

Lemma lexicographic_opp p q :
  lexicographic q p = CompOpp (lexicographic p q).
Proof.
  revert q. induction p as [|c p IH]; intros [|d q]; simpl; try reflexivity.
  destruct (Traits_lt c d) eqn:Hcd.
  - rewrite (Traits_lt_asym _ _ Hcd). reflexivity.
  - destruct (Traits_lt d c); [reflexivity|]. apply IH.
Qed.

Lemma lexicographic_Lt_trans p q r :
  lexicographic p q = Lt → lexicographic q r = Lt → lexicographic p r = Lt.
Proof.
  revert q r. induction p as [|c p IH]; intros [|d q] [|e r]; simpl;
    try (discriminate || reflexivity).
  destruct (Traits_lt c d) eqn:Hcd.
  - intros _. destruct (Traits_lt d e) eqn:Hde.
    + intros _. rewrite (Traits_lt_trans _ _ _ Hcd Hde). reflexivity.
    + destruct (Traits_lt e d) eqn:Hed; [discriminate|]. intros _.
      assert (Traits_eq d e = true) as Heq by (apply Traits_eq_lt; auto).
      rewrite (Traits_lt_eq_r _ _ _ Hcd Heq). reflexivity.
  - destruct (Traits_lt d c) eqn:Hdc; [discriminate|].
    assert (Traits_eq c d = true) as Heq by (apply Traits_eq_lt; auto).
    intros Hpq. destruct (Traits_lt d e) eqn:Hde.
    + intros _. rewrite (Traits_lt_eq_l _ _ _ Heq Hde). reflexivity.
    + destruct (Traits_lt e d) eqn:Hed; [discriminate|]. intros Hqr.
      assert (Traits_eq d e = true) as Heq' by (apply Traits_eq_lt; auto).
      pose proof (Traits_eq_trans _ _ _ Heq Heq') as Hce.
      apply Traits_eq_lt in Hce as [-> ->]. eauto.
Qed.

(** The comparison of two sequences from that of their common prefix and
    their lengths. *)
Lemma lexicographic_prefix p q :
  let n := Nat.min (length p) (length q) in
  lexicographic p q
  = match lexicographic (take n p) (take n q) with
    | Eq => Nat.compare (length p) (length q)
    | o => o
    end.
Proof.
  revert q. induction p as [|c p IH]; intros [|d q]; simpl; try reflexivity.
  destruct (Traits_lt c d); [reflexivity|].
  destruct (Traits_lt d c); [reflexivity|]. apply IH.
Qed.

Context {cmp : TraitsCompare}.

(** The sign of [Traits::compare] on two ranges of one length. *)
Lemma Traits_compare_sign p q :
  length p = length q → sign_of (Traits_compare p q) = lexicographic p q.
Proof.
  intros Hlen. unfold sign_of.
  destruct (lexicographic p q) eqn:Hlex.
  - apply lexicographic_Eq in Hlex.
    apply (Traits_compare_zero p q Hlen) in Hlex. rewrite Hlex. reflexivity.
  - assert (¬ ranges_eq p q) as Hne.
    { intros Hf%lexicographic_Eq. congruence. }
    apply (lexicographic_Lt p q Hlen) in Hlex.
    apply (Traits_compare_neg p q Hlen Hne) in Hlex.
    apply Z.compare_lt_iff. assumption.
  - assert (¬ ranges_eq p q) as Hne.
    { intros Hf%lexicographic_Eq. congruence. }
    apply Z.compare_gt_iff.
    destruct (Z.lt_trichotomy (Traits_compare p q) 0) as [Hlt|[Hz|Hgt]].
    + apply (Traits_compare_neg p q Hlen Hne) in Hlt.
      apply (lexicographic_Lt p q Hlen) in Hlt. congruence.
    + apply (Traits_compare_zero p q Hlen) in Hz. contradiction.
    + assumption.
Qed.

Lemma Traits_compare_refl p : Traits_compare p p = 0.
Proof. apply Traits_compare_zero; [reflexivity|apply ranges_eq_refl]. Qed.

End TraitsFacts.

(** ** The instance satisfies the requirements on traits *)

#[global] Instance char_traits_order : TraitsOrder (CharT := Z).
Proof.
  split; simpl.
  - intros c. apply Z.ltb_irrefl.
  - intros c d e. rewrite !Z.ltb_lt. lia.
  - intros c d. rewrite Z.eqb_eq, !Z.ltb_ge. lia.
  - intros c d e. rewrite !Z.eqb_eq. congruence.
Qed.

Lemma char_compare_sign (p q : list Z) :
  length p = length q → sign_of (char_compare p q) = lexicographic p q.
Proof.
  revert q. induction p as [|c p IH]; intros [|d q] Hlen; simpl in Hlen;
    try discriminate; [reflexivity|].
  injection Hlen as Hlen. simpl.
  destruct (c <? d); [reflexivity|].
  destruct (d <? c); [reflexivity|]. apply IH, Hlen.
Qed.

#[global] Instance char_traits_compare : TraitsCompare (CharT := Z).
Proof.
  split.
  - intros p q Hlen. rewrite <- lexicographic_Eq.
    rewrite <- (char_compare_sign p q Hlen). unfold sign_of.
    symmetry. apply Z.compare_eq_iff.
  - intros p q Hlen _. rewrite <- (lexicographic_Lt p q Hlen).
    rewrite <- (char_compare_sign p q Hlen). unfold sign_of.
    symmetry. apply Z.compare_lt_iff.
Qed.

(** [char_compare] negates its result when its arguments are exchanged. *)
Lemma char_compare_opp (p q : list Z) : char_compare p q = - char_compare q p.
Proof.
  revert q. induction p as [|c p IH]; intros [|d q]; simpl; try reflexivity.
  destruct (Z.ltb_spec c d), (Z.ltb_spec d c); try lia. apply IH.
Qed.

(** ** compare *)

Section Compare.
Context {CharT : Type} `{!CharTraits CharT}.
Implicit Types (h : gmap positive (list CharT)) (l : list CharT).
Implicit Types (v a b c : BasicStringView).

(** The result of the size tie-break of [compare]. *)
Lemma compare_Ret h a b la lb :
  viewed h a = Ret la → viewed h b = Ret lb →
  let n := Z.to_nat (Z.min (size a) (size b)) in
  let result := Traits_compare (take n la) (take n lb) in
  compare h a b
  = Ret (if result =? 0
         then (if size a =? size b then 0
               else if size a <? size b then -1 else 1)
         else result).
Proof.
  intros Ha Hb n result.
  destruct (viewed_length _ _ _ Ha) as [? ?].
  destruct (viewed_length _ _ _ Hb) as [? ?].
  unfold compare.
  rewrite (Traits_compare_at_Ret h _ _ _ (take n la) (take n lb)).
  - reflexivity.
  - apply viewed_prefix; [assumption|lia..].
  - apply viewed_prefix; [assumption|lia..].
Qed.

Lemma compare_sign `{!TraitsOrder} `{!TraitsCompare} h a b la lb r :
  viewed h a = Ret la → viewed h b = Ret lb →
  compare h a b = Ret r → sign_of r = lexicographic la lb.
Proof.
  intros Ha Hb. rewrite (compare_Ret h a b la lb Ha Hb). intros [= <-].
  destruct (viewed_length _ _ _ Ha) as [? Hla].
  destruct (viewed_length _ _ _ Hb) as [? Hlb].
  rewrite (lexicographic_prefix la lb).
  replace (Nat.min (length la) (length lb))
    with (Z.to_nat (Z.min (size a) (size b))) by lia.
  set (n := Z.to_nat (Z.min (size a) (size b))).
  assert (length (take n la) = length (take n lb)) as Hlen
    by (rewrite !length_take; lia).
  rewrite <- (Traits_compare_sign _ _ Hlen).
  destruct (Z.eqb_spec (Traits_compare (take n la) (take n lb)) 0) as [Hz|Hnz].
  - rewrite Hz. unfold sign_of at 2. simpl.
    destruct (Z.eqb_spec (size a) (size b)) as [Heq|Hne].
    + symmetry. apply Nat.compare_eq_iff. lia.
    + destruct (Z.ltb_spec (size a) (size b)).
      * symmetry. apply Nat.compare_lt_iff. lia.
      * symmetry. apply Nat.compare_gt_iff. lia.
  - unfold sign_of.
    destruct (Z.compare_spec (Traits_compare (take n la) (take n lb)) 0);
      [contradiction|reflexivity..].
Qed.

(** C1: [compare] hands the first [min(size(), other.size())] characters of
    the two views to the traits' comparison and returns its result if that
    is not zero; if it is zero, the result is 0 for equal sizes, negative if
    this view is the shorter one and positive if it is the longer one. With
    traits that meet the standard's requirements the sign of the result is
    the lexicographic order of the viewed character sequences. *)
Theorem compare_lexicographic h a b la lb :
  viewed h a = Ret la → viewed h b = Ret lb →
  let n := Z.to_nat (Z.min (size a) (size b)) in
  let common := Traits_compare (take n la) (take n lb) in
  ∃ r, compare h a b = Ret r ∧
       (common ≠ 0 → r = common) ∧
       (common = 0 → size a = size b → r = 0) ∧
       (common = 0 → size a < size b → r < 0) ∧
       (common = 0 → size a > size b → r > 0) ∧
       (TraitsOrder → TraitsCompare → sign_of r = lexicographic la lb).
Proof.
  intros Ha Hb n common. eexists. split; [apply (compare_Ret h a b la lb Ha Hb)|].
  fold n. fold common.
  repeat split.
  - intros Hc. apply Z.eqb_neq in Hc. rewrite Hc. reflexivity.
  - intros Hc Hs. rewrite Hc. simpl. apply Z.eqb_eq in Hs. rewrite Hs. reflexivity.
  - intros Hc Hs. rewrite Hc. simpl.
    destruct (Z.eqb_spec (size a) (size b)); [lia|].
    destruct (Z.ltb_spec (size a) (size b)); lia.
  - intros Hc Hs. rewrite Hc. simpl.
    destruct (Z.eqb_spec (size a) (size b)); [lia|].
    destruct (Z.ltb_spec (size a) (size b)); lia.
  - intros HO HC. apply (compare_sign h a b la lb); try assumption.
    apply (compare_Ret h a b la lb Ha Hb).
Qed.

End Compare.

Lemma compare_lexicographic_witness :
  ∃ r, compare example_heap abc hello = Ret r ∧ r = -1 ∧ sign_of r = Lt.
Proof.
  destruct (compare_lexicographic example_heap abc hello abc_chars hello_chars
              eq_refl eq_refl) as (r & Hr & Hcommon & _ & _ & _ & Hsign).
  exists r. split; [exact Hr|]. split.
  - apply Hcommon. discriminate.
  - exact (Hsign char_traits_order char_traits_compare).
Defined.

(** ** Element access *)

Section Access.
Context {CharT : Type} `{!CharTraits CharT}.
Implicit Types (h : gmap positive (list CharT)) (l : list CharT).
Implicit Types (v : BasicStringView) (s : @machine CharT).

Lemma at_Throw h v position :
  (∃ e, at_ h v position = Throw e) ↔ position > size v.
Proof.
  unfold at_. destruct (Z.gtb_spec position (size v)) as [Hgt|Hle].
  - split; [lia|]. intros _. eexists. reflexivity.
  - split; [|lia]. intros [e He].
    exfalso. exact (nothrow_operator_index h v position e He).
Qed.


(** C6: on a view of a null-terminated string, [v[v.size()]] is the zero
    character. *)
Theorem index_size_is_terminator h v l :
  views h v l → operator_index h v (size v) = Ret CharT_zero.
Proof. apply views_terminator. Qed.

(** C9: the default-constructed view has size 0, is empty, and its data
    pointer is not null: it points to the empty string literal, which reads
    as the terminator alone whatever the state of the heap. *)
Theorem default_view_empty :
  size BasicStringView_default = 0 ∧
  empty BasicStringView_default = true ∧
  data BasicStringView_default ≠ Null ∧
  data BasicStringView_default = Ptr EmptyStringLiteral 0 ∧
  ∀ h, block_contents h EmptyStringLiteral = Some [CharT_zero] ∧
       views h BasicStringView_default [] ∧
       operator_index h BasicStringView_default 0 = Ret CharT_zero.
Proof.
  split; [reflexivity|]. split; [reflexivity|]. split; [discriminate|].
  split; [reflexivity|]. intros h.
  split; [reflexivity|]. split; reflexivity.
Qed.

(** C10: on a view of a null-terminated string [front()] is [operator[](0)]
    and returns a character; on an empty view this is the zero character.
    [back()] on an empty view reads outside the viewed object and has no
    defined result. *)
Theorem front_of_empty_view h v l :
  views h v l →
  front h v = operator_index h v 0 ∧
  (∃ c, front h v = Ret c ∧ head (l ++ [CharT_zero]) = Some c) ∧
  (empty v = true →
     front h v = operator_index h v (size v) ∧ front h v = Ret CharT_zero) ∧
  (empty v = true → heap_ok h → back h v = Undefined).
Proof.
  intros Hv. split; [reflexivity|].
  destruct (views_load _ _ _ Hv) as (Hn & Hlen & Hl).
  split; [|split].
  - destruct (l ++ [CharT_zero]) as [|c l'] eqn:Hc.
    { destruct l; discriminate. }
    exists c. split; [|reflexivity].
    apply (views_index h v l 0 c Hv). rewrite Hc. reflexivity.
  - intros He%empty_size. unfold front. rewrite <- He.
    split; [reflexivity|]. apply (views_terminator h v l Hv).
  - intros He%empty_size Hok. unfold back, operator_index. rewrite He.
    apply load_Ret_inv in Hv as (b & off & lb & Hp & Hb & Hoff & _ & Hr & _).
    rewrite Hp. cbn [ptr_add]. unfold deref. rewrite Hb.
    assert (Z.of_nat (length lb) ≤ ptrdiff_max) as Hlb.
    { destruct b as [|b]; simpl in Hb.
      - injection Hb as <-. simpl. unfold ptrdiff_max. lia.
      - exact (Hok b lb Hb). }
    case_decide as Hd; [|reflexivity]. exfalso.
    unfold ptrdiff_max in Hlb.
    change (to_size_t (0 - 1)) with 18446744073709551615 in Hd. lia.
Qed.

End Access.

(** ** Modifiers *)

Section Modifiers.
Context {CharT : Type} `{!CharTraits CharT}.
Implicit Types (h : gmap positive (list CharT)) (l : list CharT).
Implicit Types (v : BasicStringView) (s : @machine CharT).

(** C4: [remove_prefix(n)] assigns to the two members of its own object and
    to nothing else: the character storage and every other object stay as
    they were. For [n <= size()] the size becomes [size() - n], the data
    pointer advances by [n], and the view shows what the old one showed
    from position [n] on; for [n > size()] the view becomes empty. *)
Theorem remove_prefix_spec s this v n :
  objects s !! this = Some v → is_size_t (size v) → 0 ≤ n →
  ∃ v',
    remove_prefix this n s
    = Ret ((), Machine (chars s) (<[this := v']> (objects s))) ∧
    (n ≤ size v →
       size v' = size v - n ∧
       data v' = ptr_add (data v) n ∧
       (∀ l, viewed (chars s) v = Ret l →
             viewed (chars s) v' = Ret (drop (Z.to_nat n) l)) ∧
       (∀ l, views (chars s) v l →
             views (chars s) v' (drop (Z.to_nat n) l))) ∧
    (n > size v →
       size v' = 0 ∧ empty v' = true ∧ data v' = ptr_add (data v) (size v)).
Proof.
  intros Hv [Hlo Hhi] Hn. unfold size in *. eexists. split.
  { apply (remove_prefix_Ret this n s v Hv). }
  cbv zeta. unfold size, data, empty, viewed, views, size, data. cbn [m_data m_size].
  split.
  - intros Hle. destruct (Z.gtb_spec n (m_size v)); [lia|].
    assert (to_size_t (m_size v - n) = m_size v - n) as ->.
    { unfold to_size_t. apply Z.mod_small. lia. }
    split; [reflexivity|]. split; [reflexivity|]. split.
    + intros l Hl.
      rewrite (load_sub _ _ _ _ n (m_size v - n) Hl) by lia.
      f_equal. apply take_ge. rewrite length_drop.
      destruct (load_length _ _ _ _ Hl). lia.
    + intros l Hl.
      rewrite (load_sub _ _ _ _ n (m_size v - n + 1) Hl) by lia.
      destruct (load_length _ _ _ _ Hl) as [_ Hlen].
      rewrite length_app in Hlen. simpl in Hlen.
      f_equal. rewrite take_ge by (rewrite length_drop, length_app; simpl; lia).
      apply drop_app_le. lia.
  - intros Hgt. destruct (Z.gtb_spec n (m_size v)); [|lia].
    rewrite Z.sub_diag. repeat split; reflexivity.
Qed.

(** C8: [a.swap(b)] exchanges the two objects: afterwards [a] holds the
    data and size [b] held and the reverse. The character storage is not
    changed, and no object other than the two is changed. *)
Theorem swap_exchanges s a b va vb :
  objects s !! a = Some va → objects s !! b = Some vb →
  ∃ s',
    swap a b s = Ret ((), s') ∧
    chars s' = chars s ∧
    objects s' !! a = Some vb ∧
    objects s' !! b = Some va ∧
    (∀ c, c ≠ a → c ≠ b → objects s' !! c = objects s !! c).
Proof.
  intros Ha Hb. eexists. split; [apply (swap_Ret a b s va vb Ha Hb)|].
  cbn [chars objects]. split; [reflexivity|]. split; [|split].
  - destruct (decide (a = b)) as [->|Hne].
    + rewrite lookup_insert_eq. congruence.
    + rewrite lookup_insert_ne by congruence. apply lookup_insert_eq.
  - apply lookup_insert_eq.
  - intros c Hca Hcb. rewrite !lookup_insert_ne by congruence. reflexivity.
Qed.

End Modifiers.

(** ** starts_with and ends_with *)

Section Affixes.
Context {CharT : Type} `{!CharTraits CharT}.
Context {cmp : TraitsCompare}.
Implicit Types (h : gmap positive (list CharT)) (l : list CharT).
Implicit Types (v w : BasicStringView).

Lemma ptr_sub_add p a b : ptr_sub (ptr_add p a) b = ptr_add p (a - b).
Proof. destruct p; simpl; [reflexivity|]. f_equal. lia. Qed.

Lemma starts_with_iff h v w lv lw :
  viewed h v = Ret lv → viewed h w = Ret lw →
  ∃ r, starts_with h v w = Ret r ∧
       (r = true ↔
        size w ≤ size v ∧ ranges_eq (take (Z.to_nat (size w)) lv) lw).
Proof.
  intros Hv Hw.
  destruct (viewed_length _ _ _ Hv) as [? Hlv].
  destruct (viewed_length _ _ _ Hw) as [? Hlw].
  unfold starts_with. destruct (Z.geb_spec (size v) (size w)) as [Hge|Hlt].
  - rewrite (Traits_compare_at_Ret h _ _ _ (take (Z.to_nat (size w)) lv) lw);
      [|apply viewed_prefix; (assumption || lia)|exact Hw].
    eexists. split; [reflexivity|].
    rewrite Z.eqb_eq, Traits_compare_zero by (rewrite length_take; lia).
    intuition lia.
  - exists false. split; [reflexivity|]. split; [discriminate|]. lia.
Qed.

Lemma ends_with_iff h v w lv lw :
  viewed h v = Ret lv → viewed h w = Ret lw →
  ∃ r, ends_with h v w = Ret r ∧
       (r = true ↔
        size w ≤ size v ∧
        ranges_eq (drop (Z.to_nat (size v - size w)) lv) lw).
Proof.
  intros Hv Hw.
  destruct (viewed_length _ _ _ Hv) as [? Hlv].
  destruct (viewed_length _ _ _ Hw) as [? Hlw].
  unfold ends_with. destruct (Z.geb_spec (size v) (size w)) as [Hge|Hlt].
  - rewrite ptr_sub_add.
    rewrite (Traits_compare_at_Ret h _ _ _
               (drop (Z.to_nat (size v - size w)) lv) lw);
      [| |exact Hw].
    + eexists. split; [reflexivity|].
      rewrite Z.eqb_eq, Traits_compare_zero by (rewrite length_drop; lia).
      intuition lia.
    + rewrite (viewed_sub h v lv (size v - size w) (size w) Hv) by lia.
      f_equal. apply take_ge. rewrite length_drop. lia.
  - exists false. split; [reflexivity|]. split; [discriminate|]. lia.
Qed.

(** C3: [starts_with(prefix)] is true exactly when the prefix is not longer
    than the view and the first [prefix.size()] characters of the view are
    equal to those of the prefix under the traits; [ends_with(suffix)] is
    the same on the last [suffix.size()] characters. An empty view starts
    with and ends with no single character. *)
Theorem starts_ends_with h v w lv lw :
  viewed h v = Ret lv → viewed h w = Ret lw →
  (∃ r, starts_with h v w = Ret r ∧
        (r = true ↔
         size w ≤ size v ∧ ranges_eq (take (Z.to_nat (size w)) lv) lw)) ∧
  (∃ r, ends_with h v w = Ret r ∧
        (r = true ↔
         size w ≤ size v ∧
         ranges_eq (drop (Z.to_nat (size v - size w)) lv) lw)) ∧
  (∀ character,
     empty v = true →
     starts_with_char h v character = Ret false ∧
     ends_with_char h v character = Ret false).
Proof.
  intros Hv Hw. split; [apply starts_with_iff; assumption|].
  split; [apply ends_with_iff; assumption|].
  intros character He. unfold starts_with_char, ends_with_char.
  rewrite He. split; reflexivity.
Qed.

End Affixes.

(** ** compare as an order, and to_string *)

Section Order.
Context {CharT : Type} `{!CharTraits CharT}.
Context {order : TraitsOrder} {cmp : TraitsCompare}.
Implicit Types (h : gmap positive (list CharT)) (l : list CharT).
Implicit Types (v a b c : BasicStringView).

Lemma sign_of_Lt (r : Z) : sign_of r = Lt ↔ r < 0.
Proof. unfold sign_of. apply Z.compare_lt_iff. Qed.

Lemma compare_refl h v l : viewed h v = Ret l → compare h v v = Ret 0.
Proof.
  intros Hv. rewrite (compare_Ret h v v l l Hv Hv).
  rewrite Traits_compare_refl, !Z.eqb_refl. reflexivity.
Qed.

(** C5: [compare(v, v)] is 0; [compare(a, b)] and [compare(b, a)] have
    opposite signs, and are each other's negation when the traits'
    comparison negates its result on exchanged arguments; if [compare(a, b)]
    and [compare(b, c)] are negative, so is [compare(a, c)]. *)
Theorem compare_order h a b c la lb lc :
  viewed h a = Ret la → viewed h b = Ret lb → viewed h c = Ret lc →
  compare h a a = Ret 0 ∧
  (∃ x y, compare h a b = Ret x ∧ compare h b a = Ret y ∧
          sign_of x = CompOpp (sign_of y) ∧
          ((∀ p q : list CharT, Traits_compare p q = - Traits_compare q p) →
           x = - y)) ∧
  (∃ x y z, compare h a b = Ret x ∧ compare h b c = Ret y ∧
            compare h a c = Ret z ∧ (x < 0 → y < 0 → z < 0)).
Proof.
  intros Ha Hb Hc. split; [apply (compare_refl h a la Ha)|]. split.
  - pose proof (compare_Ret h a b la lb Ha Hb) as Hab.
    pose proof (compare_Ret h b a lb la Hb Ha) as Hba.
    cbv zeta in Hab, Hba. rewrite (Z.min_comm (size b) (size a)) in Hba.
    eexists _, _. split; [exact Hab|]. split; [exact Hba|]. split.
    + rewrite (compare_sign h a b la lb _ Ha Hb Hab).
      rewrite (compare_sign h b a lb la _ Hb Ha Hba).
      apply lexicographic_opp.
    + intros Hopp. rewrite (Hopp (take _ lb) (take _ la)).
      set (t := Traits_compare _ _).
      destruct (Z.eqb_spec t 0) as [Ht|Ht];
        destruct (Z.eqb_spec (- t) 0); try lia.
      destruct (Z.eqb_spec (size a) (size b));
        destruct (Z.eqb_spec (size b) (size a)); try lia.
      destruct (Z.ltb_spec (size a) (size b));
        destruct (Z.ltb_spec (size b) (size a)); lia.
  - pose proof (compare_Ret h a b la lb Ha Hb) as Hab.
    pose proof (compare_Ret h b c lb lc Hb Hc) as Hbc.
    pose proof (compare_Ret h a c la lc Ha Hc) as Hac.
    cbv zeta in Hab, Hbc, Hac.
    eexists _, _, _. split; [exact Hab|]. split; [exact Hbc|].
    split; [exact Hac|].
    rewrite <- !sign_of_Lt.
    rewrite (compare_sign h a b la lb _ Ha Hb Hab).
    rewrite (compare_sign h b c lb lc _ Hb Hc Hbc).
    rewrite (compare_sign h a c la lc _ Ha Hc Hac).
    apply lexicographic_Lt_trans.
Qed.

(** C7: [to_string()] copies the viewed characters into a new string; the
    view of that string has the size of the original view, shows the same
    characters, ends in a terminator, and compares equal to the original. *)
Theorem to_string_round_trip h v l :
  viewed h v = Ret l →
  ∃ h' string,
    to_string h v = Ret (h', string) ∧
    let v' := BasicStringView_from_string string in
    size v' = size v ∧
    views h' v' l ∧
    viewed h' v = Ret l ∧
    compare h' v v' = Ret 0 ∧
    compare h' v' v = Ret 0 ∧
    (∀ (i : nat) ch,
       l !! i = Some ch →
       operator_index h' v' (Z.of_nat i) = Ret ch ∧
       operator_index h' v (Z.of_nat i) = Ret ch ∧
       operator_index h v (Z.of_nat i) = Ret ch).
Proof.
  intros Hv. destruct (viewed_length _ _ _ Hv) as [Hn Hlen].
  pose proof Hv as Hv0.
  apply load_Ret_inv in Hv0 as (b & off & lb & Hp & Hb & Hoff & _ & Hr & Hl).
  set (n := fresh (dom h)).
  assert (h !! n = None) as Hfresh by (apply not_elem_of_dom, is_fresh).
  set (h' := <[n := l ++ [CharT_zero]]> h).
  set (string := {| string_data := Ptr (HeapBlock n) 0; string_size := size v |}).
  exists h', string.
  assert (to_string h v = Ret (h', string)) as Hts.
  { unfold to_string, basic_string_from_range, begin, end_, cend, cbegin.
    rewrite Hp. cbn [ptr_add].
    case_decide as Hd; [|exfalso; apply Hd; split; [reflexivity|lia]].
    replace (off + size v - off) with (size v) by lia.
    unfold viewed in Hv. rewrite Hp in Hv. rewrite Hv. reflexivity. }
  split; [exact Hts|]. cbv zeta.
  assert (views h' (BasicStringView_from_string string) l) as Hviews.
  { unfold views, BasicStringView_from_string, data, size. simpl.
    unfold h'. rewrite lookup_insert_eq.
    case_decide as Hd.
    - change (Z.to_nat 0) with 0%nat. rewrite drop_0.
      rewrite take_ge by (rewrite length_app; simpl; lia). reflexivity.
    - exfalso. apply Hd. rewrite length_app. simpl. unfold size in *. lia. }
  assert (viewed h' v = Ret l) as Hv'
    by (apply load_insert_fresh; assumption).
  destruct (views_load _ _ _ Hviews) as (_ & _ & Hvs).
  split; [reflexivity|]. split; [exact Hviews|]. split; [exact Hv'|].
  split; [|split].
  - rewrite (compare_Ret h' v _ l l Hv' Hvs).
    rewrite Traits_compare_refl. simpl. rewrite Z.eqb_refl. reflexivity.
  - rewrite (compare_Ret h' _ v l l Hvs Hv').
    rewrite Traits_compare_refl. simpl. rewrite Z.eqb_refl. reflexivity.
  - intros i ch Hi. unfold operator_index.
    split; [|split].
    + exact (load_deref _ _ _ _ _ _ Hvs Hi).
    + exact (load_deref _ _ _ _ _ _ Hv' Hi).
    + exact (load_deref _ _ _ _ _ _ Hv Hi).
Qed.

End Order.

(** ** The theorems at the example views *)

Lemma example_heap_ok : heap_ok example_heap.
Proof.
  unfold heap_ok, example_heap.
  repeat (apply map_Forall_insert_2; [vm_compute; discriminate|]).
  apply map_Forall_empty.
Qed.

(** The empty view at the end of ["hello"]. *)
Lemma hello_tail_views :
  views example_heap {| m_data := Ptr (HeapBlock 1) 5; m_size := 0 |} [].
Proof. reflexivity. Qed.



Lemma index_size_is_terminator_witness :
  operator_index example_heap hello 5 = Ret 0.
Proof.
  exact (index_size_is_terminator example_heap hello hello_chars eq_refl).
Defined.

Lemma front_of_empty_view_witness :
  front example_heap {| m_data := Ptr (HeapBlock 1) 5; m_size := 0 |} = Ret 0 ∧
  back example_heap {| m_data := Ptr (HeapBlock 1) 5; m_size := 0 |}
  = Undefined.
Proof.
  destruct (front_of_empty_view example_heap
              {| m_data := Ptr (HeapBlock 1) 5; m_size := 0 |} []
              hello_tail_views) as (_ & _ & Hfront & Hback).
  split.
  - apply Hfront. reflexivity.
  - apply Hback; [reflexivity|apply example_heap_ok].
Defined.

Lemma starts_ends_with_witness :
  starts_with example_heap hello he = Ret true.
Proof.
  destruct (starts_ends_with example_heap hello he hello_chars [104; 101]
              eq_refl eq_refl) as ((r & Hr & Hiff) & _).
  rewrite Hr. f_equal. apply Hiff. split.
  - vm_compute. discriminate.
  - repeat constructor.
Defined.

Lemma remove_prefix_spec_witness :
  ∃ v', remove_prefix 1 2 example_machine
        = Ret ((), Machine (chars example_machine)
                     (<[1%positive := v']> (objects example_machine))) ∧
        size v' = 3 ∧ views example_heap v' [108; 108; 111].
Proof.
  assert (is_size_t (size hello)) as Hsize
    by (split; vm_compute; [discriminate|reflexivity]).
  assert (0 ≤ 2) as Hn by lia.
  destruct (remove_prefix_spec example_machine 1 hello 2 eq_refl Hsize Hn)
    as (v' & Hrun & Hle & _).
  exists v'. split; [exact Hrun|].
  destruct Hle as (Hs & _ & _ & Hviews); [vm_compute; discriminate|].
  split; [exact Hs|].
  apply (Hviews hello_chars). reflexivity.
Defined.

Lemma swap_exchanges_witness :
  ∃ s', swap 1 2 example_machine = Ret ((), s') ∧
        chars s' = chars example_machine ∧
        objects s' !! 1%positive = Some abc ∧
        objects s' !! 2%positive = Some hello ∧
        (∀ c, c ≠ 1%positive → c ≠ 2%positive →
              objects s' !! c = objects example_machine !! c).
Proof.
  exact (swap_exchanges example_machine 1 2 hello abc eq_refl eq_refl).
Defined.

Lemma compare_order_witness :
  compare example_heap abc abc = Ret 0 ∧
  (∃ x y, compare example_heap abc abd = Ret x ∧
          compare example_heap abd abc = Ret y ∧
          sign_of x = CompOpp (sign_of y) ∧ x = - y) ∧
  (∃ x y z, compare example_heap abc abd = Ret x ∧
            compare example_heap abd hello = Ret y ∧
            compare example_heap abc hello = Ret z ∧
            (x < 0 → y < 0 → z < 0)).
Proof.
  destruct (compare_order example_heap abc abd hello
              abc_chars abd_chars hello_chars eq_refl eq_refl eq_refl)
    as (Hrefl & (x & y & Hx & Hy & Hsign & Hopp) & Htrans).
  split; [exact Hrefl|]. split; [|exact Htrans].
  exists x, y. repeat split; try assumption.
  apply Hopp. exact char_compare_opp.
Defined.

Lemma to_string_round_trip_witness :
  ∃ h' string,
    to_string example_heap hello = Ret (h', string) ∧
    size (BasicStringView_from_string string) = size hello ∧
    views h' (BasicStringView_from_string string) hello_chars ∧
    compare h' hello (BasicStringView_from_string string) = Ret 0.
Proof.
  destruct (to_string_round_trip example_heap hello hello_chars eq_refl)
    as (h' & string & Hrun & Hsize & Hviews & _ & Hcmp & _).
  exists h', string. auto.
Defined.

(** * Further properties of the view *)

(** ** More on the lexicographic order *)

Section LexicographicFacts.
Context {CharT : Type} `{!CharTraits CharT}.
Context {order : TraitsOrder}.
Implicit Types (c d e : CharT) (p q r : list CharT).

Lemma Traits_lt_congr_l c d e :
  Traits_eq c d = true → Traits_lt c e = Traits_lt d e.
Proof.
  intros Hcd. destruct (Traits_lt d e) eqn:Hde.
  - exact (Traits_lt_eq_l _ _ _ Hcd Hde).
  - destruct (Traits_lt c e) eqn:Hce; [|reflexivity].
    rewrite (Traits_lt_eq_l _ _ _ (Traits_eq_sym _ _ Hcd) Hce) in Hde.
    discriminate.
Qed.

Lemma Traits_lt_congr_r c d e :
  Traits_eq c d = true → Traits_lt e c = Traits_lt e d.
Proof.
  intros Hcd. destruct (Traits_lt e d) eqn:Hed.
  - exact (Traits_lt_eq_r _ _ _ Hed (Traits_eq_sym _ _ Hcd)).
  - destruct (Traits_lt e c) eqn:Hec; [|reflexivity].
    rewrite (Traits_lt_eq_r _ _ _ Hec Hcd) in Hed. discriminate.
Qed.

Lemma lexicographic_refl p : lexicographic p p = Eq.
Proof. apply lexicographic_Eq, ranges_eq_refl. Qed.

(** Sequences that compare equal compare alike with every third. *)
Lemma lexicographic_Eq_l p q r :
  lexicographic p q = Eq → lexicographic p r = lexicographic q r.
Proof.
  revert q r. induction p as [|c p IH]; intros [|d q] [|e r]; simpl;
    intros Hpq; try discriminate; try reflexivity.
  destruct (Traits_lt c d) eqn:Hcd; [discriminate|].
  destruct (Traits_lt d c) eqn:Hdc; [discriminate|].
  assert (Traits_eq c d = true) as Heq by (apply Traits_eq_lt; auto).
  rewrite (Traits_lt_congr_l _ _ e Heq), (Traits_lt_congr_r _ _ e Heq).
  destruct (Traits_lt d e); [reflexivity|].
  destruct (Traits_lt e d); [reflexivity|]. apply IH, Hpq.
Qed.

Lemma lexicographic_Eq_r p q r :
  lexicographic q r = Eq → lexicographic p q = lexicographic p r.
Proof.
  intros Hqr. rewrite (lexicographic_opp q p), (lexicographic_opp r p).
  f_equal. apply lexicographic_Eq_l. exact Hqr.
Qed.

Lemma lexicographic_Gt_trans p q r :
  lexicographic p q = Gt → lexicographic q r = Gt → lexicographic p r = Gt.
Proof.
  rewrite (lexicographic_opp q p), (lexicographic_opp r q),
    (lexicographic_opp r p).
  intros Hqp Hrq.
  destruct (lexicographic q p) eqn:H1; try discriminate.
  destruct (lexicographic r q) eqn:H2; try discriminate.
  rewrite (lexicographic_Lt_trans r q p H2 H1). reflexivity.
Qed.

(** A prefix under the traits' equality is not larger. *)
Lemma lexicographic_prefix_le p q :
  (length p ≤ length q)%nat → ranges_eq p (take (length p) q) →
  lexicographic p q = (if decide (length p = length q) then Eq else Lt).
Proof.
  intros Hlen Hpre. rewrite (lexicographic_prefix p q).
  rewrite Nat.min_l by assumption. rewrite firstn_all.
  apply lexicographic_Eq in Hpre. rewrite Hpre.
  case_decide as Hd.
  - apply Nat.compare_eq_iff. assumption.
  - apply Nat.compare_lt_iff. lia.
Qed.

End LexicographicFacts.

(** ** The relational operators *)

Section Relational.
Context {CharT : Type} `{!CharTraits CharT}.
Implicit Types (h : gmap positive (list CharT)) (l : list CharT).
Implicit Types (x y a b c : BasicStringView).

Lemma compare_defined h x y lx ly :
  viewed h x = Ret lx → viewed h y = Ret ly → ∃ r, compare h x y = Ret r.
Proof. intros Hx Hy. eexists. apply (compare_Ret h x y lx ly Hx Hy). Qed.

Lemma operators_Ret h x y r :
  compare h x y = Ret r →
  operator_eq h x y = Ret (r =? 0) ∧
  operator_ne h x y = Ret (negb (r =? 0)) ∧
  operator_lt h x y = Ret (r <? 0) ∧
  operator_gt h x y = Ret (r >? 0) ∧
  operator_le h x y = Ret (r <=? 0) ∧
  operator_ge h x y = Ret (r >=? 0).
Proof.
  intros Hr.
  unfold operator_ne, operator_eq, operator_lt, operator_gt, operator_le,
    operator_ge.
  rewrite Hr. repeat split; reflexivity.
Qed.

(** X1: on two readable views all six operators return; exactly one of
    [<], [==], [>] is true, [!=] is the negation of [==], [<=] of [>] and
    [>=] of [<]. *)
Theorem relational_operators_consistent h x y lx ly :
  viewed h x = Ret lx → viewed h y = Ret ly →
  ∃ e l g : bool,
    operator_eq h x y = Ret e ∧
    operator_lt h x y = Ret l ∧
    operator_gt h x y = Ret g ∧
    operator_ne h x y = Ret (negb e) ∧
    operator_le h x y = Ret (negb g) ∧
    operator_ge h x y = Ret (negb l) ∧
    ((e = true ∧ l = false ∧ g = false) ∨
     (e = false ∧ l = true ∧ g = false) ∨
     (e = false ∧ l = false ∧ g = true)).
Proof.
  intros Hx Hy. destruct (compare_defined h x y lx ly Hx Hy) as [r Hr].
  destruct (operators_Ret h x y r Hr) as (He & Hne & Hl & Hg & Hle & Hge).
  exists (r =? 0), (r <? 0), (r >? 0).
  split; [exact He|]. split; [exact Hl|]. split; [exact Hg|].
  split; [exact Hne|].
  rewrite Hle, Hge.
  replace (negb (r >? 0)) with (r <=? 0) by (rewrite Z.gtb_ltb, Z.leb_antisym; reflexivity).
  replace (negb (r <? 0)) with (r >=? 0) by (rewrite Z.geb_leb, Z.ltb_antisym, negb_involutive; reflexivity).
  split; [reflexivity|]. split; [reflexivity|].
  rewrite Z.gtb_ltb.
  destruct (Z.eqb_spec r 0), (Z.ltb_spec r 0), (Z.ltb_spec 0 r);
    try lia; tauto.
Qed.

Context {order : TraitsOrder} {cmp : TraitsCompare}.

(** The operators through the lexicographic order of the contents. *)
Lemma operators_lexicographic h x y lx ly :
  viewed h x = Ret lx → viewed h y = Ret ly →
  operator_eq h x y
  = Ret (match lexicographic lx ly with Eq => true | _ => false end) ∧
  operator_ne h x y
  = Ret (match lexicographic lx ly with Eq => false | _ => true end) ∧
  operator_lt h x y
  = Ret (match lexicographic lx ly with Lt => true | _ => false end) ∧
  operator_gt h x y
  = Ret (match lexicographic lx ly with Gt => true | _ => false end) ∧
  operator_le h x y
  = Ret (match lexicographic lx ly with Gt => false | _ => true end) ∧
  operator_ge h x y
  = Ret (match lexicographic lx ly with Lt => false | _ => true end).
Proof.
  intros Hx Hy. destruct (compare_defined h x y lx ly Hx Hy) as [r Hr].
  destruct (operators_Ret h x y r Hr) as (-> & -> & -> & -> & -> & ->).
  rewrite <- (compare_sign h x y lx ly r Hx Hy Hr). unfold sign_of.
  rewrite Z.gtb_ltb, Z.geb_leb.
  destruct (Z.compare_spec r 0) as [Hz|Hz|Hz];
    destruct (Z.eqb_spec r 0), (Z.ltb_spec r 0), (Z.ltb_spec 0 r),
      (Z.leb_spec r 0), (Z.leb_spec 0 r); try lia; repeat split; reflexivity.
Qed.

(** X2: exchanging the operands exchanges [<] with [>] and [<=] with [>=]
    and leaves [==] and [!=] as they are. *)
Theorem relational_operators_flip h x y lx ly :
  viewed h x = Ret lx → viewed h y = Ret ly →
  operator_eq h y x = operator_eq h x y ∧
  operator_ne h y x = operator_ne h x y ∧
  operator_gt h y x = operator_lt h x y ∧
  operator_lt h y x = operator_gt h x y ∧
  operator_ge h y x = operator_le h x y ∧
  operator_le h y x = operator_ge h x y.
Proof.
  intros Hx Hy.
  destruct (operators_lexicographic h x y lx ly Hx Hy)
    as (-> & -> & -> & -> & -> & ->).
  destruct (operators_lexicographic h y x ly lx Hy Hx)
    as (-> & -> & -> & -> & -> & ->).
  rewrite (lexicographic_opp lx ly).
  destruct (lexicographic lx ly); repeat split; reflexivity.
Qed.

(** X3: [==] holds exactly of views with equally many characters that are
    equal under the traits position by position; it is reflexive and
    transitive, and views that are [==] give the same result in [<] and
    [>] against any third view. *)
Theorem operator_eq_equivalence h a b c la lb lc :
  viewed h a = Ret la → viewed h b = Ret lb → viewed h c = Ret lc →
  (operator_eq h a b = Ret true ↔ ranges_eq la lb) ∧
  operator_eq h a a = Ret true ∧
  (operator_eq h a b = Ret true → operator_eq h b c = Ret true →
   operator_eq h a c = Ret true) ∧
  (operator_eq h a b = Ret true →
   operator_lt h a c = operator_lt h b c ∧
   operator_gt h a c = operator_gt h b c ∧
   operator_eq h a c = operator_eq h b c).
Proof.
  intros Ha Hb Hc.
  destruct (operators_lexicographic h a b la lb Ha Hb) as (Heq & _).
  destruct (operators_lexicographic h a a la la Ha Ha) as (Hrefl & _).
  destruct (operators_lexicographic h b c lb lc Hb Hc)
    as (Hbc & _ & Hbcl & Hbcg & _).
  destruct (operators_lexicographic h a c la lc Ha Hc)
    as (Hac & _ & Hacl & Hacg & _).
  rewrite Heq, Hrefl, Hbc, Hac, Hbcl, Hacl, Hbcg, Hacg.
  rewrite lexicographic_refl.
  assert (Ret (match lexicographic la lb with Eq => true | _ => false end)
          = Ret true ↔ lexicographic la lb = Eq) as Hiff.
  { destruct (lexicographic la lb); split; congruence. }
  rewrite Hiff. split; [apply lexicographic_Eq|]. split; [reflexivity|].
  split.
  - intros Hab. rewrite (lexicographic_Eq_l la lb lc Hab). auto.
  - intros Hab. rewrite (lexicographic_Eq_l la lb lc Hab). auto.
Qed.

(** X4: [<] is a strict order and [<=] the total order that goes with it:
    [<] is irreflexive and transitive; [<=] is reflexive, transitive and
    total, and two views that are [<=] each other are [==]. *)
Theorem operator_lt_strict_order h a b c la lb lc :
  viewed h a = Ret la → viewed h b = Ret lb → viewed h c = Ret lc →
  operator_lt h a a = Ret false ∧
  operator_le h a a = Ret true ∧
  (operator_lt h a b = Ret true → operator_lt h b c = Ret true →
   operator_lt h a c = Ret true) ∧
  (operator_le h a b = Ret true → operator_le h b c = Ret true →
   operator_le h a c = Ret true) ∧
  (operator_le h a b = Ret true ∨ operator_le h b a = Ret true) ∧
  (operator_le h a b = Ret true → operator_le h b a = Ret true →
   operator_eq h a b = Ret true).
Proof.
  intros Ha Hb Hc.
  destruct (operators_lexicographic h a a la la Ha Ha)
    as (_ & _ & -> & _ & -> & _).
  destruct (operators_lexicographic h a b la lb Ha Hb)
    as (-> & _ & -> & _ & -> & _).
  destruct (operators_lexicographic h b a lb la Hb Ha)
    as (_ & _ & _ & _ & -> & _).
  destruct (operators_lexicographic h b c lb lc Hb Hc)
    as (_ & _ & -> & _ & -> & _).
  destruct (operators_lexicographic h a c la lc Ha Hc)
    as (_ & _ & -> & _ & -> & _).
  rewrite lexicographic_refl, (lexicographic_opp la lb).
  split; [reflexivity|]. split; [reflexivity|].
  destruct (lexicographic la lb) eqn:Hab;
    destruct (lexicographic lb lc) eqn:Hbc; simpl;
    try rewrite (lexicographic_Eq_l la lb lc Hab);
    try rewrite <- (lexicographic_Eq_r la lb lc Hbc);
    try rewrite (lexicographic_Lt_trans la lb lc Hab Hbc);
    try rewrite (lexicographic_Gt_trans la lb lc Hab Hbc);
    try rewrite Hab; try rewrite Hbc;
    repeat split; auto; try discriminate; intros; try discriminate.
Qed.

End Relational.

(** ** Construction from a C string, an array and a literal *)

Section Constructors.
Context {CharT : Type} `{!CharTraits CharT}.
Implicit Types (h : gmap positive (list CharT)) (l : list CharT).
Implicit Types (v x y : BasicStringView).

Lemma Traits_length_Ret h b off lb l z rest :
  block_contents h b = Some lb → 0 ≤ off →
  drop (Z.to_nat off) lb = l ++ z :: rest →
  Forall (λ c, Traits_eq c CharT_zero = false) l →
  Traits_eq z CharT_zero = true →
  Traits_length h (Ptr b off) = Ret (Z.of_nat (length l)).
Proof.
  intros Hb Hoff Hdrop Hl Hz. unfold Traits_length. rewrite Hb.
  assert (Z.to_nat off < length lb)%nat as Hlt.
  { destruct (decide (Z.to_nat off < length lb)%nat) as [|Hge]; [assumption|].
    rewrite drop_ge in Hdrop by lia. destruct l; discriminate. }
  case_decide as Hd; [|lia].
  rewrite Hdrop.
  assert (list_find (λ c, Traits_eq c CharT_zero = true) (l ++ z :: rest)
          = Some (length l, z)) as ->; [|reflexivity].
  apply list_find_Some. split; [apply list_lookup_middle; reflexivity|].
  split; [exact Hz|].
  intros j y Hj Hjl. rewrite lookup_app_l in Hj by assumption.
  rewrite Forall_lookup in Hl. rewrite (Hl j y Hj). discriminate.
Qed.

(** X5: the view made from a C string has the given pointer as data and, as
    size, the number of characters before the first one that is equal to
    [CharT()] under the traits, whatever follows that character; the viewed
    range is the characters before it. *)
Theorem from_c_str_size h b off lb l z rest :
  block_contents h b = Some lb → 0 ≤ off →
  drop (Z.to_nat off) lb = l ++ z :: rest →
  Forall (λ c, Traits_eq c CharT_zero = false) l →
  Traits_eq z CharT_zero = true →
  ∃ v, BasicStringView_from_c_str h (Ptr b off) = Ret v ∧
       data v = Ptr b off ∧
       size v = Z.of_nat (length l) ∧
       viewed h v = Ret l ∧
       operator_index h v (size v) = Ret z.
Proof.
  intros Hb Hoff Hdrop Hl Hz.
  exists {| m_data := Ptr b off; m_size := Z.of_nat (length l) |}.
  unfold BasicStringView_from_c_str.
  rewrite (Traits_length_Ret h b off lb l z rest Hb Hoff Hdrop Hl Hz).
  split; [reflexivity|]. split; [reflexivity|]. split; [reflexivity|].
  assert (Z.to_nat off + length l < length lb)%nat as Hlen.
  { pose proof (f_equal length Hdrop) as Hlen.
    rewrite length_drop, length_app in Hlen. simpl in Hlen. lia. }
  split.
  - unfold viewed, data, size. cbn [m_data m_size].
    rewrite (load_Ret_intro h b off lb _ Hb) by lia.
    rewrite Hdrop, Nat2Z.id, take_app_length. reflexivity.
  - unfold operator_index, data, size, deref. cbn [m_data m_size ptr_add].
    rewrite Hb. case_decide as Hd; [|lia].
    rewrite Z2Nat.inj_add, Nat2Z.id by lia.
    rewrite <- lookup_drop, Hdrop, list_lookup_middle by reflexivity.
    reflexivity.
Qed.

(** X6: making a view from a pointer into a block that holds no character
    equal to [CharT()] from that position on, or from a null pointer, has no
    defined behaviour: the length scan leaves the object. *)
Theorem from_c_str_unterminated h b off lb :
  block_contents h b = Some lb →
  Forall (λ c, Traits_eq c CharT_zero = false) (drop (Z.to_nat off) lb) →
  BasicStringView_from_c_str h (Ptr b off) = Undefined ∧
  BasicStringView_from_c_str h Null = Undefined.
Proof.
  intros Hb Hall. split; [|reflexivity].
  unfold BasicStringView_from_c_str, Traits_length. rewrite Hb.
  case_decide; [|reflexivity].
  assert (list_find (λ c, Traits_eq c CharT_zero = true)
            (drop (Z.to_nat off) lb) = None) as ->; [|reflexivity].
  apply list_find_None. eapply Forall_impl; [exact Hall|].
  simpl. intros c Hc. rewrite Hc. discriminate.
Qed.

Context {order : TraitsOrder}.

Lemma views_from_c_str h string l :
  views h (BasicStringView_from_pointer_size string (Z.of_nat (length l))) l →
  Forall (λ c, Traits_eq c CharT_zero = false) l →
  BasicStringView_from_c_str h string
  = Ret (BasicStringView_from_pointer_size string (Z.of_nat (length l))).
Proof.
  intros Hv Hl. unfold views, data, size in Hv. simpl in Hv.
  apply load_Ret_inv in Hv as (b & off & lb & -> & Hb & Hoff & _ & Hr & Hv).
  assert (drop (Z.to_nat off) lb
          = l ++ CharT_zero
              :: drop (Z.to_nat (Z.of_nat (length l) + 1))
                   (drop (Z.to_nat off) lb)) as Hdrop.
  { rewrite <- (take_drop (Z.to_nat (Z.of_nat (length l) + 1))
                  (drop (Z.to_nat off) lb)) at 1.
    rewrite <- Hv, <- app_assoc. reflexivity. }
  unfold BasicStringView_from_c_str.
  rewrite (Traits_length_Ret h b off lb l CharT_zero _ Hb Hoff Hdrop Hl
             (Traits_eq_refl CharT_zero)).
  reflexivity.
Qed.

(** X7: over one null-terminated source without an embedded terminator the
    constructors agree: the C-string constructor, the array constructor
    given the array length (the characters and the terminator), the
    pointer-and-size constructor and the [_sv] literal operator given the
    number of characters all make the same view. *)
Theorem constructors_agree h string l :
  views h (BasicStringView_from_pointer_size string (Z.of_nat (length l))) l →
  Forall (λ c, Traits_eq c CharT_zero = false) l →
  is_size_t (Z.of_nat (length l)) →
  let v := BasicStringView_from_pointer_size string (Z.of_nat (length l)) in
  BasicStringView_from_c_str h string = Ret v ∧
  BasicStringView_from_array string (Z.of_nat (length l) + 1) = v ∧
  operator_sv string (Z.of_nat (length l)) = v ∧
  size v = Z.of_nat (length l).
Proof.
  intros Hv Hl Hsize v. split; [apply views_from_c_str; assumption|].
  split; [|split; reflexivity].
  unfold BasicStringView_from_array, v, BasicStringView_from_pointer_size.
  f_equal. unfold to_size_t.
  replace (Z.of_nat (length l) + 1 - 1) with (Z.of_nat (length l)) by lia.
  apply Z.mod_small. exact Hsize.
Qed.

Context {cmp : TraitsCompare}.

(** X8: [compare] with a C string is [compare] with the view of that
    string: its sign is the lexicographic order of the viewed characters
    and the characters of the string before its terminator. *)
Theorem compare_c_str_sign h v lv string l :
  viewed h v = Ret lv →
  views h (BasicStringView_from_pointer_size string (Z.of_nat (length l))) l →
  Forall (λ c, Traits_eq c CharT_zero = false) l →
  ∃ r, compare_c_str h v string = Ret r ∧
       compare h v
         (BasicStringView_from_pointer_size string (Z.of_nat (length l)))
       = Ret r ∧
       sign_of r = lexicographic lv l.
Proof.
  intros Hv Hs Hl. unfold compare_c_str.
  rewrite (views_from_c_str h string l Hs Hl). simpl.
  destruct (views_load _ _ _ Hs) as (_ & _ & Hs').
  destruct (compare_defined h v _ lv l Hv Hs') as [r Hr].
  exists r. split; [exact Hr|]. split; [exact Hr|].
  exact (compare_sign h v _ lv l r Hv Hs' Hr).
Qed.

(** X9: the operators that take a C string on one side agree with each
    other when the operands are exchanged: [v == s] is [s == v], [v != s]
    is [s != v], [v < s] is [s > v] and [v > s] is [s < v]; [v == s] holds
    exactly when the viewed characters equal those of the string. The same
    holds of [==] with a [std::basic_string]. *)
Theorem mixed_operators_flip h v lv string l s ls :
  viewed h v = Ret lv →
  views h (BasicStringView_from_pointer_size string (Z.of_nat (length l))) l →
  Forall (λ c, Traits_eq c CharT_zero = false) l →
  viewed h (BasicStringView_from_string s) = Ret ls →
  operator_eq_c_str_l h string v = operator_eq_c_str_r h v string ∧
  operator_ne_c_str_l h string v = operator_ne_c_str_r h v string ∧
  operator_gt_c_str_l h string v = operator_lt_c_str_r h v string ∧
  operator_lt_c_str_l h string v = operator_gt_c_str_r h v string ∧
  (operator_eq_c_str_r h v string = Ret true ↔ ranges_eq lv l) ∧
  operator_eq_string_l h s v = operator_eq_string_r h v s ∧
  (operator_eq_string_r h v s = Ret true ↔ ranges_eq lv ls).
Proof.
  intros Hv Hs Hl Hstr.
  unfold operator_eq_c_str_l, operator_eq_c_str_r, operator_ne_c_str_l,
    operator_ne_c_str_r, operator_gt_c_str_l, operator_lt_c_str_r,
    operator_lt_c_str_l, operator_gt_c_str_r, operator_eq_string_l,
    operator_eq_string_r.
  rewrite (views_from_c_str h string l Hs Hl). simpl.
  destruct (views_load _ _ _ Hs) as (_ & _ & Hs').
  destruct (operators_lexicographic h v _ lv l Hv Hs')
    as (-> & -> & -> & -> & _).
  destruct (operators_lexicographic h _ v l lv Hs' Hv)
    as (-> & -> & -> & -> & _).
  destruct (operators_lexicographic h v _ lv ls Hv Hstr) as (-> & _).
  destruct (operators_lexicographic h _ v ls lv Hstr Hv) as (-> & _).
  rewrite (lexicographic_opp lv l), (lexicographic_opp lv ls).
  rewrite <- !lexicographic_Eq.
  destruct (lexicographic lv l), (lexicographic lv ls); simpl;
    repeat split; try reflexivity; intros; congruence.
Qed.

End Constructors.

(** ** First and last character, prefixes and suffixes *)

Section Ends.
Context {CharT : Type} `{!CharTraits CharT}.
Implicit Types (h : gmap positive (list CharT)) (l : list CharT).
Implicit Types (v w : BasicStringView).

Lemma viewed_index h v l (i : nat) ch :
  viewed h v = Ret l → l !! i = Some ch →
  operator_index h v (Z.of_nat i) = Ret ch.
Proof. intros Hv Hi. exact (load_deref _ _ _ _ _ _ Hv Hi). Qed.

Lemma back_index v :
  is_size_t (size v) → 0 < size v → to_size_t (size v - 1) = size v - 1.
Proof. intros [? ?] ?. unfold to_size_t. apply Z.mod_small. lia. Qed.

Lemma front_back_Ret h v l :
  viewed h v = Ret l → is_size_t (size v) → 0 < size v →
  ∃ first final,
    head l = Some first ∧ last l = Some final ∧
    front h v = Ret first ∧ back h v = Ret final.
Proof.
  intros Hv Hsize Hpos. destruct (viewed_length _ _ _ Hv) as [_ Hlen].
  destruct l as [|first l']; [simpl in Hlen; lia|].
  destruct (lookup_lt_is_Some_2 (first :: l') (pred (length (first :: l'))))
    as [final Hfinal]; [simpl; lia|].
  exists first, final.
  split; [reflexivity|]. split; [rewrite last_lookup; exact Hfinal|].
  split.
  - exact (viewed_index h v (first :: l') 0 first Hv eq_refl).
  - unfold back. rewrite (back_index v Hsize Hpos).
    replace (size v - 1) with (Z.of_nat (pred (length (first :: l'))))
      by lia.
    exact (viewed_index h v _ _ final Hv Hfinal).
Qed.

(** X10: on a view that is not empty [front()] is the first and [back()]
    the last of the viewed characters, and they are what [at(0)] and
    [at(size() - 1)] return. *)
Theorem front_back_nonempty h v l :
  viewed h v = Ret l → is_size_t (size v) → 0 < size v →
  ∃ first final,
    head l = Some first ∧ last l = Some final ∧
    front h v = Ret first ∧ back h v = Ret final ∧
    at_ h v 0 = Ret first ∧ at_ h v (size v - 1) = Ret final.
Proof.
  intros Hv Hsize Hpos.
  destruct (front_back_Ret h v l Hv Hsize Hpos)
    as (first & final & Hh & Hl & Hf & Hb).
  exists first, final.
  split; [exact Hh|]. split; [exact Hl|].
  split; [exact Hf|]. split; [exact Hb|].
  unfold at_. destruct (Z.gtb_spec 0 (size v)); [lia|].
  destruct (Z.gtb_spec (size v - 1) (size v)); [lia|].
  split; [exact Hf|].
  unfold back in Hb. rewrite (back_index v Hsize Hpos) in Hb. exact Hb.
Qed.

(** X11: on a view that is not empty [starts_with(character)] compares the
    character with the first viewed character and [ends_with(character)]
    with the last one, by the traits' [eq]. *)
Theorem affix_character_nonempty h v l character :
  viewed h v = Ret l → is_size_t (size v) → 0 < size v →
  ∃ first final,
    head l = Some first ∧ last l = Some final ∧
    starts_with_char h v character = Ret (Traits_eq character first) ∧
    ends_with_char h v character = Ret (Traits_eq character final).
Proof.
  intros Hv Hsize Hpos.
  destruct (front_back_Ret h v l Hv Hsize Hpos)
    as (first & final & Hh & Hl & Hf & Hb).
  exists first, final. split; [exact Hh|]. split; [exact Hl|].
  unfold starts_with_char, ends_with_char.
  assert (empty v = false) as ->.
  { unfold empty. rewrite to_size_t_0. apply Z.eqb_neq. lia. }
  simpl. rewrite Hf, Hb. split; reflexivity.
Qed.

Context {order : TraitsOrder} {cmp : TraitsCompare}.

Lemma ranges_eq_sym (p q : list CharT) : ranges_eq p q → ranges_eq q p.
Proof.
  unfold ranges_eq. intros Hpq. apply Forall2_flip.
  eapply Forall2_impl; [exact Hpq|]. simpl. intros c d. apply Traits_eq_sym.
Qed.

(** X12: every readable view starts with and ends with itself, and with
    every empty view, the default-constructed one among them. *)
Theorem starts_ends_with_self h v l w :
  viewed h v = Ret l → viewed h w = Ret [] →
  starts_with h v v = Ret true ∧ ends_with h v v = Ret true ∧
  starts_with h v w = Ret true ∧ ends_with h v w = Ret true ∧
  starts_with h v BasicStringView_default = Ret true ∧
  ends_with h v BasicStringView_default = Ret true.
Proof.
  intros Hv Hw.
  destruct (viewed_length _ _ _ Hv) as [Hn Hlen].
  destruct (viewed_length _ _ _ Hw) as [Hwn Hwlen]. simpl in Hwlen.
  assert (size w = 0) as Hw0 by lia.
  assert (∀ u, viewed h u = Ret [] → size u = 0 →
               starts_with h v u = Ret true ∧ ends_with h v u = Ret true)
    as Hempty.
  { intros u Hu Hu0.
    destruct (starts_with_iff h v u l [] Hv Hu) as (r & -> & Hr).
    destruct (ends_with_iff h v u l [] Hv Hu) as (r' & -> & Hr').
    rewrite Hu0 in Hr, Hr'. split; f_equal.
    - apply Hr. split; [lia|]. simpl. constructor.
    - apply Hr'. split; [lia|]. rewrite drop_ge by lia. constructor. }
  destruct (starts_with_iff h v v l l Hv Hv) as (r & -> & Hr).
  destruct (ends_with_iff h v v l l Hv Hv) as (r' & -> & Hr').
  split; [f_equal; apply Hr|split; [f_equal; apply Hr'|]].
  - split; [lia|]. rewrite take_ge by lia. apply ranges_eq_refl.
  - split; [lia|]. rewrite Z.sub_diag. apply ranges_eq_refl.
  - destruct (Hempty w Hw Hw0). destruct (Hempty BasicStringView_default);
      auto.
Qed.

(** X13: [compare] returns 0 exactly when the view starts with the other
    one and has its size; a view is never smaller than a view it starts
    with, and it is larger than a shorter one it starts with. *)
Theorem prefix_compare h v w lv lw :
  viewed h v = Ret lv → viewed h w = Ret lw →
  (compare h v w = Ret 0 ↔
   starts_with h v w = Ret true ∧ size v = size w) ∧
  (starts_with h v w = Ret true →
   operator_le h w v = Ret true ∧
   (size w < size v → operator_lt h w v = Ret true)).
Proof.
  intros Hv Hw.
  destruct (viewed_length _ _ _ Hv) as [Hn Hlen].
  destruct (viewed_length _ _ _ Hw) as [Hwn Hwlen].
  destruct (starts_with_iff h v w lv lw Hv Hw) as (r & Hsw & Hr).
  rewrite Hsw.
  assert (Ret r = Ret true ↔
          size w ≤ size v ∧ ranges_eq (take (Z.to_nat (size w)) lv) lw)
    as Hiff.
  { rewrite <- Hr. split; congruence. }
  rewrite Hiff. clear Hiff Hr Hsw r.
  destruct (compare_defined h v w lv lw Hv Hw) as [x Hx].
  pose proof (compare_sign h v w lv lw x Hv Hw Hx) as Hsign.
  destruct (operators_lexicographic h w v lw lv Hw Hv)
    as (_ & _ & -> & _ & -> & _).
  split.
  - rewrite Hx. split.
    + intros [= ->]. change (sign_of 0) with Eq in Hsign. symmetry in Hsign.
      apply lexicographic_Eq in Hsign.
      pose proof (Forall2_length _ _ _ Hsign) as Hll.
      split; [|lia]. split; [lia|]. rewrite take_ge by lia. exact Hsign.
    + intros [[_ Hpre] Hsz]. rewrite take_ge in Hpre by lia.
      apply lexicographic_Eq in Hpre. rewrite Hpre in Hsign.
      unfold sign_of in Hsign. apply Z.compare_eq_iff in Hsign.
      rewrite Hsign. reflexivity.
  - intros [Hle Hpre]. apply ranges_eq_sym in Hpre.
    rewrite <- Hwlen in Hpre.
    rewrite (lexicographic_prefix_le lw lv) by (lia || assumption).
    case_decide; split; try reflexivity. lia.
Qed.

End Ends.

(** ** remove_prefix, swap and to_string together with the other functions *)

Section ModifierFacts.
Context {CharT : Type} `{!CharTraits CharT}.
Implicit Types (h : gmap positive (list CharT)) (l : list CharT).
Implicit Types (v w : BasicStringView) (s : @machine CharT).

Lemma ptr_add_add p a b : ptr_add (ptr_add p a) b = ptr_add p (a + b).
Proof. destruct p; simpl; [reflexivity|]. f_equal. lia. Qed.

Lemma machine_eta s : Machine (chars s) (objects s) = s.
Proof. destruct s; reflexivity. Qed.

(** Two calls in a row, the sum of the counts taken in unbounded
    integers. *)
Lemma remove_prefix_seq s this v n m :
  objects s !! this = Some v → is_size_t (size v) → 0 ≤ n → 0 ≤ m →
  (remove_prefix this n ;; remove_prefix this m) s
  = remove_prefix this (n + m) s.
Proof.
  intros Hv [Hlo Hhi] Hn Hm. unfold size in *.
  rewrite (exec_bind_Ret _ _ _ _ _ (remove_prefix_Ret this n s v Hv)).
  set (v1 := {| m_data := _; m_size := _ |}).
  rewrite (remove_prefix_Ret this m _ v1 (lookup_insert_eq _ _ _)).
  rewrite (remove_prefix_Ret this (n + m) s v Hv).
  cbn [chars objects]. rewrite insert_insert_eq.
  do 3 f_equal. subst v1. cbn [m_data m_size]. cbv zeta.
  rewrite ptr_add_add.
  set (k1 := if n >? m_size v then m_size v else n).
  assert (0 ≤ k1 ≤ m_size v ∧ (n ≤ m_size v → k1 = n) ∧
          (n > m_size v → k1 = m_size v)) as (Hk1 & Hk1n & Hk1s).
  { subst k1. destruct (Z.gtb_spec n (m_size v)); lia. }
  assert (to_size_t (m_size v - k1) = m_size v - k1) as ->.
  { unfold to_size_t. apply Z.mod_small. lia. }
  set (k2 := if m >? m_size v - k1 then m_size v - k1 else m).
  set (k := if n + m >? m_size v then m_size v else n + m).
  assert (k1 + k2 = k) as Hk.
  { subst k2 k. destruct (Z.gtb_spec m (m_size v - k1));
      destruct (Z.gtb_spec (n + m) (m_size v)); lia. }
  rewrite Hk.
  replace (m_size v - k1 - k2) with (m_size v - k) by lia. reflexivity.
Qed.

(** X14: for two counts whose sum does not overflow [std::size_t], removing
    a prefix of [n] and then one of [m] characters is removing one of
    [n + m] characters, also when a count or the sum is more than the view
    has. For any two counts it is removing their sum cut off at the largest
    [std::size_t]. *)
Theorem remove_prefix_twice s this v n m :
  objects s !! this = Some v →
  is_size_t (size v) → is_size_t n → is_size_t m →
  (remove_prefix this n ;; remove_prefix this m) s
  = remove_prefix this (Z.min (n + m) (size_t_modulus - 1)) s ∧
  (n + m < size_t_modulus →
   (remove_prefix this n ;; remove_prefix this m) s
   = remove_prefix this (to_size_t (n + m)) s).
Proof.
  intros Hv Hsize [Hn Hn'] [Hm Hm'].
  rewrite (remove_prefix_seq s this v n m Hv Hsize Hn Hm).
  destruct Hsize as [Hlo Hhi]. unfold size in *. split.
  - rewrite (remove_prefix_Ret this (n + m) s v Hv),
      (remove_prefix_Ret this (Z.min (n + m) (size_t_modulus - 1)) s v Hv).
    cbv zeta.
    destruct (Z.gtb_spec (n + m) (m_size v));
      destruct (Z.gtb_spec (Z.min (n + m) (size_t_modulus - 1)) (m_size v));
      try reflexivity.
    + replace (Z.min (n + m) (size_t_modulus - 1)) with (m_size v) by lia.
      reflexivity.
    + lia.
    + rewrite Z.min_l by lia. reflexivity.
  - intros Hsum. unfold to_size_t. rewrite Z.mod_small by lia. reflexivity.
Qed.

(** X15: [remove_prefix] keeps the view over a null-terminated string for
    every count: the view that results shows the old characters from
    position [n] on (none of them if [n] is more than the size) and is
    followed by the same terminator; its character at [i] is the old
    character at [i] plus the number of characters removed. *)
Theorem remove_prefix_keeps_terminator s this v l n :
  objects s !! this = Some v → views (chars s) v l →
  is_size_t (size v) → 0 ≤ n →
  ∃ v',
    remove_prefix this n s
    = Ret ((), Machine (chars s) (<[this := v']> (objects s))) ∧
    views (chars s) v' (drop (Z.to_nat n) l) ∧
    size v' = Z.of_nat (length (drop (Z.to_nat n) l)) ∧
    operator_index (chars s) v' (size v') = Ret CharT_zero ∧
    (∀ i, operator_index (chars s) v' i
          = operator_index (chars s) v (Z.min n (size v) + i)).
Proof.
  intros Hobj Hv [Hlo Hhi] Hn.
  destruct (views_load _ _ _ Hv) as (Hs0 & Hlen & _).
  eexists. split; [apply (remove_prefix_Ret this n s v Hobj)|].
  cbv zeta. set (k := if n >? m_size v then m_size v else n).
  assert (k = Z.min n (size v)) as Hk.
  { subst k. unfold size. destruct (Z.gtb_spec n (m_size v)); lia. }
  assert (to_size_t (m_size v - k) = size v - k) as Hsz.
  { unfold to_size_t, size in *. apply Z.mod_small. lia. }
  rewrite Hsz.
  set (v' := {| m_data := _; m_size := _ |}).
  assert (views (chars s) v' (drop (Z.to_nat n) l)) as Hv'.
  { unfold views, v', data, size. cbn [m_data m_size].
    rewrite (load_sub (chars s) (m_data v) (m_size v + 1) _ k
               (m_size v - k + 1) Hv) by (unfold size in *; lia).
    f_equal. unfold size in *.
    rewrite take_ge by (rewrite length_drop, length_app; simpl; lia).
    rewrite drop_app_le by lia. f_equal.
    destruct (Z.le_gt_cases n (m_size v)).
    - rewrite Hk, Z.min_l by lia. reflexivity.
    - rewrite Hk, Z.min_r by lia. rewrite !drop_ge by lia. reflexivity. }
  split; [exact Hv'|]. split.
  - unfold v', size in *. cbn [m_size]. rewrite length_drop. lia.
  - split; [apply (views_terminator _ _ _ Hv')|].
    intros i. unfold operator_index, v', data. cbn [m_data].
    rewrite ptr_add_add, Hk. reflexivity.
Qed.

(** X16: swapping twice gives back the state there was; a view swapped
    with itself is not changed; [a.swap(b)], [b.swap(a)] and the free
    function [swap(a, b)] do the same. *)
Theorem swap_twice s a b va vb :
  objects s !! a = Some va → objects s !! b = Some vb →
  (swap a b ;; swap a b) s = Ret ((), s) ∧
  swap a a s = Ret ((), s) ∧
  swap b a s = swap a b s ∧
  swap_views a b s = swap a b s.
Proof.
  intros Ha Hb. split; [|split; [|split; [|reflexivity]]].
  - rewrite (exec_bind_Ret _ _ _ _ _ (swap_Ret a b s va vb Ha Hb)).
    assert (<[b:=va]> (<[a:=vb]> (objects s)) !! a = Some vb) as Ha'.
    { destruct (decide (a = b)) as [->|Hne].
      - rewrite lookup_insert_eq. congruence.
      - rewrite lookup_insert_ne by congruence. apply lookup_insert_eq. }
    rewrite (swap_Ret a b
               (Machine (chars s) (<[b:=va]> (<[a:=vb]> (objects s))))
               vb va Ha' (lookup_insert_eq _ _ _)).
    cbn [chars objects]. rewrite <- (machine_eta s) at 3. do 3 f_equal.
    apply map_eq. intros i.
    destruct (decide (i = b)) as [->|Hib];
      [rewrite lookup_insert_eq; congruence|].
    rewrite lookup_insert_ne by congruence.
    destruct (decide (i = a)) as [->|Hia];
      [rewrite lookup_insert_eq; congruence|].
    rewrite !lookup_insert_ne by congruence. reflexivity.
  - rewrite (swap_Ret a a s va va Ha Ha). cbn [chars objects].
    rewrite insert_insert_eq, (insert_id _ _ _ Ha), machine_eta. reflexivity.
  - rewrite (swap_Ret a b s va vb Ha Hb), (swap_Ret b a s vb va Hb Ha).
    do 3 f_equal. destruct (decide (a = b)) as [->|Hne].
    + congruence.
    + apply insert_insert_ne. congruence.
Qed.

(** X17: [to_string] leaves every block there was as it is and puts the
    copy into a block that was not there: whatever could be read before
    reads the same afterwards, and every view of a null-terminated string
    is still one. The new block holds the viewed characters and a
    terminator. *)
Theorem to_string_fresh_block h v l :
  viewed h v = Ret l →
  ∃ h' string (n : positive),
    to_string h v = Ret (h', string) ∧
    h !! n = None ∧
    h' = <[n := l ++ [CharT_zero]]> h ∧
    string_data string = Ptr (HeapBlock n) 0 ∧
    string_size string = size v ∧
    (∀ p k lk, load h p k = Ret lk → load h' p k = Ret lk) ∧
    (∀ w lw, views h w lw → views h' w lw) ∧
    (∀ w i ch, operator_index h w i = Ret ch →
               operator_index h' w i = Ret ch).
Proof.
  intros Hv. destruct (viewed_length _ _ _ Hv) as [Hn Hlen].
  pose proof Hv as Hv0.
  apply load_Ret_inv in Hv0 as (b & off & lb & Hp & Hb & Hoff & _ & Hr & Hl).
  set (n := fresh (dom h)).
  assert (h !! n = None) as Hfresh by (apply not_elem_of_dom, is_fresh).
  exists (<[n := l ++ [CharT_zero]]> h),
    {| string_data := Ptr (HeapBlock n) 0; string_size := size v |}, n.
  split.
  { unfold to_string, basic_string_from_range, begin, end_, cend, cbegin.
    rewrite Hp. cbn [ptr_add].
    case_decide as Hd; [|exfalso; apply Hd; split; [reflexivity|lia]].
    replace (off + size v - off) with (size v) by lia.
    unfold viewed in Hv. rewrite Hp in Hv. rewrite Hv. reflexivity. }
  split; [exact Hfresh|]. do 3 (split; [reflexivity|]).
  split; [|split].
  - intros p k lk. apply load_insert_fresh, Hfresh.
  - intros w lw. unfold views. apply load_insert_fresh, Hfresh.
  - intros w i ch. unfold operator_index, deref.
    destruct (ptr_add (data w) i) as [|b' off']; [discriminate|].
    destruct b' as [|b']; simpl; [auto|].
    destruct (h !! b') as [lb'|] eqn:Hb'; [|discriminate].
    rewrite lookup_insert_ne by congruence. rewrite Hb'. auto.
Qed.

End ModifierFacts.

(** ** Iterators, the empty view, and suffixes *)

Section IteratorFacts.
Context {CharT : Type} `{!CharTraits CharT}.
Implicit Types (h : gmap positive (list CharT)) (l : list CharT).
Implicit Types (v w : BasicStringView) (s : @machine CharT).

(** X18: [begin()] plus [i] points to the [i]-th viewed character and
    [begin()] plus [size()] is [end()]; [rbegin()] plus [i] points to the
    [i]-th character counted from the end, and [rbegin()] plus [size()] is
    [rend()]. On a view whose data pointer is not null, [begin()] is [end()]
    exactly when the view is empty. *)
Theorem iterators_traverse h v l :
  viewed h v = Ret l →
  (∀ (i : nat) ch, l !! i = Some ch →
                   deref h (ptr_add (begin v) (Z.of_nat i)) = Ret ch) ∧
  ptr_add (begin v) (size v) = end_ v ∧
  (∀ (i : nat) ch, reverse l !! i = Some ch →
                   reverse_deref h (reverse_add (rbegin v) (Z.of_nat i))
                   = Ret ch) ∧
  reverse_add (rbegin v) (size v) = rend v ∧
  (begin v = end_ v ↔ empty v = true).
Proof.
  intros Hv. destruct (viewed_length _ _ _ Hv) as [Hn Hlen].
  split; [|split; [reflexivity|split; [|split]]].
  - intros i ch Hi. exact (load_deref _ _ _ _ _ _ Hv Hi).
  - intros i ch Hi.
    assert (i < length l)%nat as Hlt.
    { apply lookup_lt_Some in Hi. rewrite length_reverse in Hi. exact Hi. }
    rewrite reverse_lookup in Hi by assumption.
    unfold reverse_deref, reverse_add, rbegin, crbegin, cend, cbegin.
    cbn [current]. rewrite !ptr_sub_add.
    replace (size v - Z.of_nat i - 1) with (Z.of_nat (length l - S i)) by lia.
    exact (load_deref _ _ _ _ _ _ Hv Hi).
  - unfold reverse_add, rbegin, crbegin, rend, crend, cend, cbegin.
    cbn [current]. rewrite ptr_sub_add, Z.sub_diag. f_equal.
    destruct (data v); simpl; [reflexivity|]. f_equal. lia.
  - rewrite empty_size. unfold begin, end_, cend, cbegin.
    unfold viewed in Hv. destruct (data v) as [|b off]; [discriminate|].
    simpl. split.
    + intros [= Heq]. lia.
    + intros ->. f_equal. lia.
Qed.

Context {cmp : TraitsCompare}.

Lemma Traits_compare_nil : Traits_compare (@nil CharT) [] = 0.
Proof. apply Traits_compare_zero; [reflexivity|constructor]. Qed.

(** X19: the default-constructed view is the least view: compared with a
    readable view it gives 0 if that view is empty and -1 if it is not, and
    the reverse comparison gives 0 or 1. Two empty views compare equal
    wherever they point. *)
Theorem default_view_least h v l w :
  viewed h v = Ret l → viewed h w = Ret [] →
  compare h BasicStringView_default v
  = Ret (if empty v then 0 else -1) ∧
  compare h v BasicStringView_default
  = Ret (if empty v then 0 else 1) ∧
  (empty v = true → compare h v w = Ret 0 ∧ compare h w v = Ret 0).
Proof.
  intros Hv Hw.
  destruct (viewed_length _ _ _ Hv) as [Hn Hlen].
  destruct (viewed_length _ _ _ Hw) as [Hwn Hwlen]. simpl in Hwlen.
  assert (viewed h BasicStringView_default = Ret []) as Hd by reflexivity.
  assert (size BasicStringView_default = 0) as Hd0 by reflexivity.
  rewrite (compare_Ret h _ v [] l Hd Hv), (compare_Ret h v _ l [] Hv Hd).
  rewrite Hd0, Z.min_l, Z.min_r by lia.
  change (Z.to_nat 0) with 0%nat. rewrite !take_0, Traits_compare_nil.
  change (0 =? 0) with true. cbv iota. unfold empty. rewrite to_size_t_0.
  split; [|split].
  - rewrite (Z.eqb_sym 0 (size v)).
    destruct (Z.eqb_spec (size v) 0); [reflexivity|].
    destruct (Z.ltb_spec 0 (size v)); [reflexivity|lia].
  - destruct (Z.eqb_spec (size v) 0); [reflexivity|].
    destruct (Z.ltb_spec (size v) 0); [lia|reflexivity].
  - intros He%Z.eqb_eq.
    rewrite (compare_Ret h v w l [] Hv Hw), (compare_Ret h w v [] l Hw Hv).
    replace (size w) with 0 by lia. rewrite He, Z.min_id.
    change (Z.to_nat 0) with 0%nat. rewrite !take_0, Traits_compare_nil.
    split; reflexivity.
Qed.

Context {order : TraitsOrder}.

(** X20: the view before [remove_prefix] ends with the view after it. *)
Theorem remove_prefix_suffix s this v l n :
  objects s !! this = Some v → viewed (chars s) v = Ret l →
  is_size_t (size v) → 0 ≤ n →
  ∃ v',
    remove_prefix this n s
    = Ret ((), Machine (chars s) (<[this := v']> (objects s))) ∧
    viewed (chars s) v' = Ret (drop (Z.to_nat n) l) ∧
    ends_with (chars s) v v' = Ret true.
Proof.
  intros Hobj Hv [Hlo Hhi] Hn.
  destruct (viewed_length _ _ _ Hv) as [_ Hlen].
  eexists. split; [apply (remove_prefix_Ret this n s v Hobj)|].
  cbv zeta. set (k := if n >? m_size v then m_size v else n).
  assert (k = Z.min n (size v)) as Hk.
  { subst k. unfold size. destruct (Z.gtb_spec n (m_size v)); lia. }
  assert (to_size_t (m_size v - k) = size v - k) as Hsz.
  { unfold to_size_t, size in *. apply Z.mod_small. lia. }
  rewrite Hsz.
  set (v' := {| m_data := _; m_size := _ |}).
  assert (drop (Z.to_nat n) l = drop (Z.to_nat k) l) as Hdrop.
  { destruct (Z.le_gt_cases n (size v)).
    - rewrite Hk, Z.min_l by lia. reflexivity.
    - rewrite Hk, Z.min_r by lia. rewrite !drop_ge by lia. reflexivity. }
  assert (viewed (chars s) v' = Ret (drop (Z.to_nat n) l)) as Hv'.
  { unfold viewed, v', data, size. cbn [m_data m_size].
    rewrite (load_sub (chars s) (m_data v) (m_size v) _ k (m_size v - k) Hv)
      by (unfold size in *; lia).
    rewrite take_ge by (rewrite length_drop; unfold size in *; lia).
    rewrite Hdrop. reflexivity. }
  split; [exact Hv'|].
  destruct (ends_with_iff (chars s) v v' l _ Hv Hv') as (r & -> & Hr).
  f_equal. apply Hr. unfold v', size in *. cbn [m_size].
  split; [lia|].
  replace (m_size v - (m_size v - k)) with k by lia.
  rewrite Hdrop. apply ranges_eq_refl.
Qed.

End IteratorFacts.

(** ** The results depend on the viewed characters only *)

Section Contents.
Context {CharT : Type} `{!CharTraits CharT}.
Implicit Types (h : gmap positive (list CharT)) (l : list CharT).
Implicit Types (v w a b : BasicStringView).

Lemma starts_with_Ret h v w lv lw :
  viewed h v = Ret lv → viewed h w = Ret lw →
  starts_with h v w
  = Ret (if size v >=? size w
         then Traits_compare (take (Z.to_nat (size w)) lv) lw =? 0
         else false).
Proof.
  intros Hv Hw.
  destruct (viewed_length _ _ _ Hv) as [? Hlv].
  destruct (viewed_length _ _ _ Hw) as [? Hlw].
  unfold starts_with. destruct (Z.geb_spec (size v) (size w)); [|reflexivity].
  rewrite (Traits_compare_at_Ret h _ _ _ (take (Z.to_nat (size w)) lv) lw);
    [reflexivity|apply viewed_prefix; (assumption || lia)|exact Hw].
Qed.

Lemma ends_with_Ret h v w lv lw :
  viewed h v = Ret lv → viewed h w = Ret lw →
  ends_with h v w
  = Ret (if size v >=? size w
         then Traits_compare (drop (Z.to_nat (size v - size w)) lv) lw =? 0
         else false).
Proof.
  intros Hv Hw.
  destruct (viewed_length _ _ _ Hv) as [? Hlv].
  destruct (viewed_length _ _ _ Hw) as [? Hlw].
  unfold ends_with. destruct (Z.geb_spec (size v) (size w)); [|reflexivity].
  rewrite ptr_sub_add.
  rewrite (Traits_compare_at_Ret h _ _ _
             (drop (Z.to_nat (size v - size w)) lv) lw);
    [reflexivity| |exact Hw].
  rewrite (viewed_sub h v lv (size v - size w) (size w) Hv) by lia.
  f_equal. apply take_ge. rewrite length_drop. lia.
Qed.

Lemma viewed_size h v l : viewed h v = Ret l → size v = Z.of_nat (length l).
Proof. intros Hv. destruct (viewed_length _ _ _ Hv). lia. Qed.

(** X21: [compare], the relational operators, [starts_with] and
    [ends_with] depend on the viewed characters and not on where they are
    stored: two views of the same characters give the same results
    against every view, on either side. *)
Theorem same_characters_same_results h a a' b la lb :
  viewed h a = Ret la → viewed h a' = Ret la → viewed h b = Ret lb →
  compare h a b = compare h a' b ∧
  compare h b a = compare h b a' ∧
  operator_eq h a b = operator_eq h a' b ∧
  operator_lt h a b = operator_lt h a' b ∧
  operator_lt h b a = operator_lt h b a' ∧
  starts_with h a b = starts_with h a' b ∧
  starts_with h b a = starts_with h b a' ∧
  ends_with h a b = ends_with h a' b ∧
  ends_with h b a = ends_with h b a'.
Proof.
  intros Ha Ha' Hb.
  pose proof (viewed_size h a la Ha) as Hs.
  pose proof (viewed_size h a' la Ha') as Hs'.
  assert (compare h a b = compare h a' b) as Hab.
  { rewrite (compare_Ret h a b la lb Ha Hb), (compare_Ret h a' b la lb Ha' Hb).
    rewrite Hs, Hs'. reflexivity. }
  assert (compare h b a = compare h b a') as Hba.
  { rewrite (compare_Ret h b a lb la Hb Ha), (compare_Ret h b a' lb la Hb Ha').
    rewrite Hs, Hs'. reflexivity. }
  split; [exact Hab|]. split; [exact Hba|].
  unfold operator_eq, operator_lt. rewrite Hab, Hba.
  do 3 (split; [reflexivity|]).
  rewrite (starts_with_Ret h a b la lb Ha Hb),
    (starts_with_Ret h a' b la lb Ha' Hb),
    (starts_with_Ret h b a lb la Hb Ha),
    (starts_with_Ret h b a' lb la Hb Ha'),
    (ends_with_Ret h a b la lb Ha Hb),
    (ends_with_Ret h a' b la lb Ha' Hb),
    (ends_with_Ret h b a lb la Hb Ha),
    (ends_with_Ret h b a' lb la Hb Ha').
  rewrite Hs, Hs'. repeat split; reflexivity.
Qed.

End Contents.

(** ** The further properties at the example views *)

Lemma hello_size_t : is_size_t (size hello).
Proof. split; vm_compute; [discriminate|reflexivity]. Qed.

Lemma hello_no_terminator :
  Forall (λ c, Traits_eq c CharT_zero = false) hello_chars.
Proof. repeat constructor. Qed.

Lemma abc_no_terminator :
  Forall (λ c, Traits_eq c CharT_zero = false) abc_chars.
Proof. repeat constructor. Qed.

Lemma hello_views : views example_heap hello hello_chars.
Proof. reflexivity. Qed.

Lemma abc_views : views example_heap abc abc_chars.
Proof. reflexivity. Qed.

Lemma relational_operators_consistent_witness :
  ∃ e l g : bool,
    operator_eq example_heap abc abd = Ret e ∧
    operator_lt example_heap abc abd = Ret l ∧
    operator_gt example_heap abc abd = Ret g ∧
    operator_ne example_heap abc abd = Ret (negb e) ∧
    operator_le example_heap abc abd = Ret (negb g) ∧
    operator_ge example_heap abc abd = Ret (negb l) ∧
    ((e = true ∧ l = false ∧ g = false) ∨
     (e = false ∧ l = true ∧ g = false) ∨
     (e = false ∧ l = false ∧ g = true)).
Proof.
  exact (relational_operators_consistent example_heap abc abd
           abc_chars abd_chars eq_refl eq_refl).
Defined.

Lemma relational_operators_flip_witness :
  operator_gt example_heap abd abc = operator_lt example_heap abc abd.
Proof.
  exact (proj1 (proj2 (proj2
           (relational_operators_flip example_heap abc abd
              abc_chars abd_chars eq_refl eq_refl)))).
Defined.

Lemma operator_eq_equivalence_witness :
  operator_eq example_heap abc abc = Ret true.
Proof.
  exact (proj1 (proj2
           (operator_eq_equivalence example_heap abc abd hello
              abc_chars abd_chars hello_chars eq_refl eq_refl eq_refl))).
Defined.

Lemma operator_lt_strict_order_witness :
  operator_lt example_heap abc abc = Ret false ∧
  operator_le example_heap abc abc = Ret true.
Proof.
  destruct (operator_lt_strict_order example_heap abc abd hello
              abc_chars abd_chars hello_chars eq_refl eq_refl eq_refl)
    as (Hirr & Hrefl & _).
  exact (conj Hirr Hrefl).
Defined.

Lemma from_c_str_size_witness :
  ∃ v, BasicStringView_from_c_str example_heap (Ptr (HeapBlock 1) 0) = Ret v ∧
       size v = 5.
Proof.
  assert (0 ≤ 0) as H0 by lia.
  destruct (from_c_str_size example_heap (HeapBlock 1) 0 (hello_chars ++ [0])
              hello_chars 0 [] eq_refl H0 eq_refl hello_no_terminator
              eq_refl) as (v & Hv & _ & Hs & _).
  exists v. exact (conj Hv Hs).
Defined.

Lemma from_c_str_unterminated_witness :
  BasicStringView_from_c_str example_heap (Ptr (HeapBlock 1) 6) = Undefined.
Proof.
  assert (Forall (λ c : Z, Traits_eq c CharT_zero = false)
            (drop (Z.to_nat 6) (hello_chars ++ [0]))) as Hall
    by (vm_compute; constructor).
  exact (proj1 (from_c_str_unterminated example_heap (HeapBlock 1) 6
                  (hello_chars ++ [0]) eq_refl Hall)).
Defined.

Lemma constructors_agree_witness :
  BasicStringView_from_c_str example_heap (Ptr (HeapBlock 1) 0) = Ret hello ∧
  BasicStringView_from_array (Ptr (HeapBlock 1) 0) 6 = hello.
Proof.
  destruct (constructors_agree example_heap (Ptr (HeapBlock 1) 0) hello_chars
              hello_views hello_no_terminator hello_size_t)
    as (Hc & Ha & _).
  exact (conj Hc Ha).
Defined.

Lemma compare_c_str_sign_witness :
  ∃ r, compare_c_str example_heap hello (Ptr (HeapBlock 2) 0) = Ret r ∧
       sign_of r = Gt.
Proof.
  destruct (compare_c_str_sign example_heap hello hello_chars
              (Ptr (HeapBlock 2) 0) abc_chars eq_refl abc_views
              abc_no_terminator) as (r & Hr & _ & Hsign).
  exists r. exact (conj Hr Hsign).
Defined.

Lemma mixed_operators_flip_witness :
  operator_eq_c_str_l example_heap (Ptr (HeapBlock 2) 0) hello
  = operator_eq_c_str_r example_heap hello (Ptr (HeapBlock 2) 0).
Proof.
  exact (proj1
           (mixed_operators_flip example_heap hello hello_chars
              (Ptr (HeapBlock 2) 0) abc_chars
              {| string_data := Ptr (HeapBlock 3) 0; string_size := 3 |}
              abd_chars eq_refl abc_views abc_no_terminator eq_refl)).
Defined.

Lemma front_back_nonempty_witness :
  front example_heap hello = Ret 104 ∧ back example_heap hello = Ret 111 ∧
  at_ example_heap hello 4 = Ret 111.
Proof.
  assert (0 < size hello) as Hpos by reflexivity.
  destruct (front_back_nonempty example_heap hello hello_chars eq_refl
              hello_size_t Hpos)
    as (first & final & Hh & Hl & Hf & Hb & _ & Hat).
  injection Hh as <-. injection Hl as <-.
  exact (conj Hf (conj Hb Hat)).
Defined.

Lemma affix_character_nonempty_witness :
  starts_with_char example_heap hello 104 = Ret true ∧
  ends_with_char example_heap hello 104 = Ret false.
Proof.
  assert (0 < size hello) as Hpos by reflexivity.
  destruct (affix_character_nonempty example_heap hello hello_chars 104
              eq_refl hello_size_t Hpos)
    as (first & final & Hh & Hl & Hs & He).
  injection Hh as <-. injection Hl as <-.
  exact (conj Hs He).
Defined.

Lemma starts_ends_with_self_witness :
  starts_with example_heap hello hello = Ret true ∧
  ends_with example_heap hello BasicStringView_default = Ret true.
Proof.
  destruct (starts_ends_with_self example_heap hello hello_chars
              {| m_data := Ptr (HeapBlock 1) 5; m_size := 0 |}
              eq_refl eq_refl) as (Hs & _ & _ & _ & _ & He).
  exact (conj Hs He).
Defined.

Lemma prefix_compare_witness :
  operator_le example_heap he hello = Ret true ∧
  operator_lt example_heap he hello = Ret true.
Proof.
  destruct (prefix_compare example_heap hello he hello_chars [104; 101]
              eq_refl eq_refl) as (_ & Hpre).
  destruct (Hpre eq_refl) as (Hle & Hlt).
  split; [exact Hle|]. apply Hlt. reflexivity.
Defined.

Lemma remove_prefix_twice_witness :
  (remove_prefix 1 2 ;; remove_prefix 1 1) example_machine
  = remove_prefix 1 3 example_machine.
Proof.
  assert (is_size_t 2) as H2 by (split; vm_compute; [discriminate|reflexivity]).
  assert (is_size_t 1) as H1 by (split; vm_compute; [discriminate|reflexivity]).
  destruct (remove_prefix_twice example_machine 1 hello 2 1 eq_refl
              hello_size_t H2 H1) as [_ Hsum].
  apply Hsum. reflexivity.
Defined.

Lemma remove_prefix_keeps_terminator_witness :
  ∃ v', remove_prefix 1 7 example_machine
        = Ret ((), Machine (chars example_machine)
                     (<[1%positive := v']> (objects example_machine))) ∧
        views (chars example_machine) v' [] ∧ size v' = 0.
Proof.
  assert (0 ≤ 7) as H7 by lia.
  destruct (remove_prefix_keeps_terminator example_machine 1 hello
              hello_chars 7 eq_refl hello_views hello_size_t H7)
    as (v' & Hrun & Hviews & Hsize & _).
  exists v'. exact (conj Hrun (conj Hviews Hsize)).
Defined.

Lemma swap_twice_witness :
  (swap 1 2 ;; swap 1 2) example_machine = Ret ((), example_machine).
Proof.
  exact (proj1 (swap_twice example_machine 1 2 hello abc eq_refl eq_refl)).
Defined.

Lemma to_string_fresh_block_witness :
  ∃ h' string (n : positive),
    to_string example_heap hello = Ret (h', string) ∧
    example_heap !! n = None ∧
    views h' abc abc_chars.
Proof.
  destruct (to_string_fresh_block example_heap hello hello_chars eq_refl)
    as (h' & string & n & Hrun & Hfresh & _ & _ & _ & _ & Hviews & _).
  exists h', string, n. split; [exact Hrun|]. split; [exact Hfresh|].
  apply Hviews. reflexivity.
Defined.

Lemma iterators_traverse_witness :
  reverse_deref example_heap (reverse_add (rbegin hello) 1) = Ret 108 ∧
  reverse_add (rbegin hello) (size hello) = rend hello.
Proof.
  destruct (iterators_traverse example_heap hello hello_chars eq_refl)
    as (_ & _ & Hrev & Hrend & _).
  split; [|exact Hrend]. exact (Hrev 1%nat 108 eq_refl).
Defined.

Lemma default_view_least_witness :
  compare example_heap BasicStringView_default hello = Ret (-1).
Proof.
  exact (proj1 (default_view_least example_heap hello hello_chars
                  {| m_data := Ptr (HeapBlock 1) 5; m_size := 0 |}
                  eq_refl eq_refl)).
Defined.

Lemma remove_prefix_suffix_witness :
  ∃ v', remove_prefix 1 2 example_machine
        = Ret ((), Machine (chars example_machine)
                     (<[1%positive := v']> (objects example_machine))) ∧
        ends_with (chars example_machine) hello v' = Ret true.
Proof.
  assert (0 ≤ 2) as H2 by lia.
  destruct (remove_prefix_suffix example_machine 1 hello hello_chars 2
              eq_refl eq_refl hello_size_t H2) as (v' & Hrun & _ & Hends).
  exists v'. exact (conj Hrun Hends).
Defined.

Lemma same_characters_same_results_witness :
  compare example_heap {| m_data := Ptr (HeapBlock 2) 0; m_size := 2 |} hello
  = compare example_heap {| m_data := Ptr (HeapBlock 3) 0; m_size := 2 |}
      hello.
Proof.
  exact (proj1 (same_characters_same_results example_heap
                  {| m_data := Ptr (HeapBlock 2) 0; m_size := 2 |}
                  {| m_data := Ptr (HeapBlock 3) 0; m_size := 2 |}
                  hello [97; 98] hello_chars eq_refl eq_refl eq_refl)).
Defined.
